(** * D2L Question Library CSV converter: embedding and verified properties

    A shallow embedding of the converter library ([parseCSV], [parseCSVLine],
    [validateColumns], [getColumnValue], [loadSourceRows], [groupQuestions],
    [escapeCSV], [generateD2LCSV], [convertToD2L]) followed by the theorems
    that relate it to its specification.

    Conventions of the model.
    - A JavaScript string is a Rocq [string], one [ascii] per code unit; the
      development covers code units below 256.
    - [toLowerCase] and [toUpperCase] act on the letters A-Z and a-z.  The
      program never outputs case-converted text: it only compares it with
      the constants 'correct', 'MC' and the column names, and no character
      outside A-Z / a-z converts to a letter of these constants.
    - A value thrown with [throw new Error(msg)] is the outcome [Threw msg].
    - A number is a [JSNumber]: not-a-number, an infinity, a zero, or a
      finite value given by the decimal digits and the exponent from which
      [Number::toString] writes it.  [numberToString] is that algorithm, so
      [points] ranges over every number a caller can pass.
    - A [Record<string, string>] is the list of its own properties in the
      order of [Object.keys]: array indices first, in ascending order, then
      the other names in the order of their creation; an assignment to the
      key __proto__ creates no property. *)

From Stdlib Require Import String Ascii List Bool Arith ZArith Lia.
From Stdlib Require Import DecimalString Sorted.
Import ListNotations.

Local Open Scope list_scope.
Local Open Scope string_scope.

(** ** Strings as the program uses them *)

Module JS.

Definition QUOTE : ascii := "034"%char.
Definition COMMA : ascii := ","%char.
Definition LF : ascii := "010"%char.
Definition CR : ascii := "013"%char.

(** A string of one code unit. *)
Definition str1 (c : ascii) : string := String c EmptyString.

(** White space removed by [String.prototype.trim], among the code units
    below 256: TAB, LF, VT, FF, CR, SPACE and NBSP. *)
Definition isWhiteSpace (c : ascii) : bool :=
  let n := nat_of_ascii c in
  (((9 <=? n) && (n <=? 13)) || (n =? 32) || (n =? 160))%nat.

Fixpoint trimStart (s : string) : string :=
  match s with
  | EmptyString => EmptyString
  | String c s' => if isWhiteSpace c then trimStart s' else s
  end.

Definition isEmpty (s : string) : bool :=
  match s with EmptyString => true | String _ _ => false end.

Fixpoint trimEnd (s : string) : string :=
  match s with
  | EmptyString => EmptyString
  | String c s' =>
      let t := trimEnd s' in
      if isWhiteSpace c && isEmpty t then EmptyString else String c t
  end.

Definition trim (s : string) : string := trimEnd (trimStart s).

Definition lowerChar (c : ascii) : ascii :=
  let n := nat_of_ascii c in
  if ((65 <=? n) && (n <=? 90))%nat then ascii_of_nat (n + 32) else c.

Definition upperChar (c : ascii) : ascii :=
  let n := nat_of_ascii c in
  if ((97 <=? n) && (n <=? 122))%nat then ascii_of_nat (n - 32) else c.

Fixpoint mapChars (f : ascii -> ascii) (s : string) : string :=
  match s with
  | EmptyString => EmptyString
  | String c s' => String (f c) (mapChars f s')
  end.

Definition toLowerCase : string -> string := mapChars lowerChar.
Definition toUpperCase : string -> string := mapChars upperChar.

(** [s.includes(c)] for a one-character needle. *)
Fixpoint includes (c : ascii) (s : string) : bool :=
  match s with
  | EmptyString => false
  | String d s' => Ascii.eqb d c || includes c s'
  end.

(** [s.substring(0, n)]. *)
Definition substring0 (n : nat) (s : string) : string :=
  String.substring 0 n s.

(** [parts.join(sep)]. *)
Definition join (sep : string) (parts : list string) : string :=
  String.concat sep parts.

(** The global [value.replace] that doubles every quote character. *)
Fixpoint doubleQuotes (s : string) : string :=
  match s with
  | EmptyString => EmptyString
  | String c s' =>
      if Ascii.eqb c QUOTE then String QUOTE (String QUOTE (doubleQuotes s'))
      else String c (doubleQuotes s')
  end.

(** A count interpolated in a template literal. *)
Definition natToString (n : nat) : string :=
  NilZero.string_of_uint (Nat.to_uint n).

(** A number.  A finite number other than zero is given by the integers
    that [Number::toString] works from: its sign, the digits [s] of its
    shortest decimal form and the exponent [n], the value being
    [s * 10 ^ (n - k)] where [k] is the number of digits of [s]. *)
Inductive JSNumber : Type :=
| NaN
| Infinite (negative : bool)
| Zero (negative : bool)
| Finite (negative : bool) (s : positive) (n : Z).

Fixpoint zeros (n : nat) : string :=
  match n with
  | O => EmptyString
  | S n' => String "0" (zeros n')
  end.

Definition digitsOf (s : positive) : string :=
  NilEmpty.string_of_uint (Pos.to_uint s).

(** The exponent part: its sign, then its magnitude in decimal. *)
Definition exponentToString (e : Z) : string :=
  (if (0 <? e)%Z then "+" else "-")
    ++ NilZero.string_of_uint (N.to_uint (Z.abs_N e)).

(** [Number::toString] on a positive finite number, radix 10. *)
Definition finiteToString (s : positive) (n : Z) : string :=
  let digits := digitsOf s in
  let k := Z.of_nat (String.length digits) in
  if ((k <=? n) && (n <=? 21))%Z then
    digits ++ zeros (Z.to_nat (n - k))
  else if ((0 <? n) && (n <=? 21))%Z then
    String.substring 0 (Z.to_nat n) digits ++ "."
      ++ String.substring (Z.to_nat n) (Z.to_nat (k - n)) digits
  else if ((-6 <? n) && (n <=? 0))%Z then
    "0." ++ zeros (Z.to_nat (- n)) ++ digits
  else if (k =? 1)%Z then
    digits ++ "e" ++ exponentToString (n - 1)
  else
    String.substring 0 1 digits ++ "."
      ++ String.substring 1 (Z.to_nat (k - 1)) digits
      ++ "e" ++ exponentToString (n - 1).

(** A number interpolated in a template literal. *)
Definition numberToString (x : JSNumber) : string :=
  match x with
  | NaN => "NaN"
  | Infinite negative => if negative then "-Infinity" else "Infinity"
  | Zero _ => "0"
  | Finite negative s n =>
      (if negative then "-" else EmptyString) ++ finiteToString s n
  end.

(** The number written as an integer literal: its digits without the final
    zeros, and as exponent the number of its digits. *)
Definition integer (z : Z) : JSNumber :=
  match z with
  | Z0 => Zero false
  | Zpos p | Zneg p =>
      let digits := Pos.to_uint p in
      match
        Pos.of_uint (Decimal.rev (Decimal.unorm (Decimal.rev digits)))
      with
      | Npos s =>
          Finite (Z.ltb z 0) s (Z.of_nat (Decimal.nb_digits digits))
      | N0 => Zero false
      end
  end.

(** [arr.includes(x)] on an array of strings. *)
Definition arrayIncludes (x : string) (arr : list string) : bool :=
  existsb (String.eqb x) arr.

End JS.

Import JS.

(** ** Outcome of a call that may throw *)

Inductive Outcome (A : Type) : Type :=
| Returned (value : A)
| Threw (message : string).

Arguments Returned {A} value.
Arguments Threw {A} message.

(** ** Data model *)

Record SourceRow := mkSourceRow {
  qNumber : string;
  qType : string;
  qText : string;
  question : string;
  answer : string;
  answerMatch : string;
  notes : string
}.

Record QOption := mkQOption {
  optAnswer : string;
  isCorrect : bool;
  feedback : string
}.

Record QuestionGroup := mkQuestionGroup {
  gText : string;
  gQuestion : string;
  options : list QOption
}.

Record ConversionResult := mkConversionResult {
  csvContent : string;
  questionsCount : nat;
  optionsCount : nat;
  warnings : list string;
  skippedRows : nat
}.

Definition REQUIRED_COLUMNS : list string :=
  ["Q Type"; "Q Text"; "Answer"; "Answer Match"; "Notes"].

(** ** parseCSVLine: the quote-aware field parser of one line *)

(** The three variables of the loop. *)
Record LineState := mkLineState {
  result : list string;
  current : string;
  inQuotes : bool
}.

Definition lineStart : LineState := mkLineState [] EmptyString false.

(** The [for] loop over the characters of the line.  [char] is [line[i]],
    the head of what remains is [line[i + 1]] (undefined at the end), and
    the extra [i++] of the doubled quote drops that head. *)
Fixpoint parseLoop (line : string) (st : LineState) : LineState :=
  match line with
  | EmptyString => st
  | String char rest =>
      if inQuotes st then
        if Ascii.eqb char QUOTE then
          match rest with
          | String nextChar rest' =>
              if Ascii.eqb nextChar QUOTE
              then parseLoop rest'
                     (mkLineState (result st) (current st ++ str1 QUOTE) true)
              else parseLoop rest (mkLineState (result st) (current st) false)
          | EmptyString =>
              parseLoop rest (mkLineState (result st) (current st) false)
          end
        else parseLoop rest
               (mkLineState (result st) (current st ++ str1 char) true)
      else
        if Ascii.eqb char QUOTE then
          parseLoop rest (mkLineState (result st) (current st) true)
        else if Ascii.eqb char COMMA then
          parseLoop rest
            (mkLineState (result st ++ [current st])%list EmptyString false)
        else parseLoop rest
               (mkLineState (result st) (current st ++ str1 char) false)
  end.

Definition parseCSVLine (line : string) : list string :=
  let st := parseLoop line lineStart in
  (result st ++ [current st])%list.

(** ** parseCSV: lines, header row and data rows *)

(** [csvContent.split] on the pattern CR? LF: a line ends at LF, and a CR
    that stands immediately before that LF belongs to the separator.  [cur]
    is the piece being read; the piece that remains at the end of the text
    is always produced, also when it is empty. *)
Fixpoint splitLines (s : string) (cur : string) : list string :=
  match s with
  | EmptyString => [cur]
  | String c rest =>
      if Ascii.eqb c LF then cur :: splitLines rest EmptyString
      else if Ascii.eqb c CR then
        match rest with
        | String d rest' =>
            if Ascii.eqb d LF then cur :: splitLines rest' EmptyString
            else splitLines rest (cur ++ str1 c)
        | EmptyString => splitLines rest (cur ++ str1 c)
        end
      else splitLines rest (cur ++ str1 c)
  end.

(** A [Record<string, string>]: its own properties in the order in which
    [Object.keys] lists them, the keys that are array indices first, in
    ascending order, then the other keys in the order of their creation. *)
Definition RawRow := list (string * string).

(** The value of a text of decimal digits, [None] when the text holds
    another character. *)
Fixpoint digitsValue (s : string) (acc : N) : option N :=
  match s with
  | EmptyString => Some acc
  | String c s' =>
      let d := nat_of_ascii c in
      if ((48 <=? d) && (d <=? 57))%nat
      then digitsValue s' (10 * acc + N.of_nat (d - 48))%N
      else None
  end.

(** An array index: the canonical decimal form of an integer below
    2^32 - 1. *)
Definition arrayIndex (key : string) : option N :=
  match digitsValue key 0 with
  | Some n =>
      if (n <? 4294967295)%N
         && String.eqb (NilZero.string_of_uint (N.to_uint n)) key
      then Some n
      else None
  | None => None
  end.

Definition hasOwn (key : string) (row : RawRow) : bool :=
  existsb (fun kv => String.eqb (fst kv) key) row.

(** The value of an existing property is replaced where the property
    stands. *)
Fixpoint replaceProp (key value : string) (row : RawRow) : RawRow :=
  match row with
  | [] => []
  | (k, v) :: row' =>
      if String.eqb k key then (k, value) :: row'
      else (k, v) :: replaceProp key value row'
  end.

(** A new array index is listed before the first key that is a larger
    index or no index at all. *)
Fixpoint insertIndex (n : N) (key value : string) (row : RawRow) : RawRow :=
  match row with
  | [] => [(key, value)]
  | (k, v) :: row' =>
      match arrayIndex k with
      | Some m =>
          if (m <? n)%N then (k, v) :: insertIndex n key value row'
          else (key, value) :: row
      | None => (key, value) :: row
      end
  end.

(** [row[key] = value] on an object made by [{}], the value being a string.
    The key __proto__ names the accessor inherited from [Object.prototype],
    whose setter ignores a value that is not an object: no property is
    created.  Any other key becomes an own property, or has its value
    replaced when it is one already. *)
Definition setProp (key value : string) (row : RawRow) : RawRow :=
  if String.eqb key "__proto__" then row
  else if hasOwn key row then replaceProp key value row
  else
    match arrayIndex key with
    | Some n => insertIndex n key value row
    | None => (row ++ [(key, value)])%list
    end.

(** [row[key]] for a key that [Object.keys] lists, with [None] for a key
    that is no own property. *)
Fixpoint getProp (key : string) (row : RawRow) : option string :=
  match row with
  | [] => None
  | (k, v) :: row' => if String.eqb k key then Some v else getProp key row'
  end.

(** [headers.forEach((header, index) => row[header] = values[index] || '')]:
    an undefined or empty value gives the empty string. *)
Fixpoint fillRow (headers : list string) (index : nat) (values : list string)
    (row : RawRow) : RawRow :=
  match headers with
  | [] => row
  | header :: headers' =>
      fillRow headers' (S index) values
        (setProp header (nth index values EmptyString) row)
  end.

Definition nonBlank (line : string) : bool := negb (isEmpty (trim line)).

Definition parseCSV (csvContent : string)
  : Outcome (list string * list RawRow) :=
  let lines := filter nonBlank (splitLines csvContent EmptyString) in
  match lines with
  | [] => Threw "CSV file is empty"
  | headerLine :: dataLines =>
      let headers := parseCSVLine headerLine in
      Returned
        (headers,
         map (fun line => fillRow headers 0 (parseCSVLine line) []) dataLines)
  end.

(** ** validateColumns *)

Definition columnPresent (normalizedHeaders : list string) (required : string)
  : bool :=
  arrayIncludes (toLowerCase required) normalizedHeaders.

Record Validation := mkValidation {
  valid : bool;
  missing : list string
}.

Definition validateColumns (headers : list string) : Validation :=
  let normalizedHeaders := map (fun h => toLowerCase (trim h)) headers in
  let missing :=
    filter (fun required => negb (columnPresent normalizedHeaders required))
      REQUIRED_COLUMNS in
  mkValidation (Nat.eqb (List.length missing) 0) missing.

(** ** getColumnValue and loadSourceRows *)

Definition keyMatches (columnName : string) (kv : string * string) : bool :=
  String.eqb (toLowerCase (trim (fst kv))) (toLowerCase columnName).

Definition getColumnValue (row : RawRow) (columnName : string) : string :=
  match find (keyMatches columnName) row with
  | Some (key, _) =>
      if isEmpty key then EmptyString
      else match getProp key row with
           | Some v => v
           | None => EmptyString
           end
  | None => EmptyString
  end.

Definition loadSourceRow (row : RawRow) : SourceRow :=
  {| qNumber := getColumnValue row "Q #";
     qType := getColumnValue row "Q Type";
     qText := getColumnValue row "Q Text";
     question := getColumnValue row "Question";
     answer := getColumnValue row "Answer";
     answerMatch := getColumnValue row "Answer Match";
     notes := getColumnValue row "Notes" |}.

Definition loadSourceRows (rows : list RawRow) : list SourceRow :=
  map loadSourceRow rows.

(** ** groupQuestions *)

(** The [Map<string, QuestionGroup>]: entries in insertion order. *)
Definition GroupMap := list (string * QuestionGroup).

Definition mapHas (key : string) (m : GroupMap) : bool :=
  existsb (fun e => String.eqb (fst e) key) m.

Fixpoint mapGet (key : string) (m : GroupMap) : option QuestionGroup :=
  match m with
  | [] => None
  | (k, g) :: m' => if String.eqb k key then Some g else mapGet key m'
  end.

(** [groupMap.set(key, group)]: a new key goes last, a known key keeps its
    place. *)
Fixpoint mapSet (key : string) (group : QuestionGroup) (m : GroupMap)
  : GroupMap :=
  match m with
  | [] => [(key, group)]
  | (k, g) :: m' =>
      if String.eqb k key then (k, group) :: m'
      else (k, g) :: mapSet key group m'
  end.

Definition pushOption (group : QuestionGroup) (o : QOption) : QuestionGroup :=
  {| gText := gText group;
     gQuestion := gQuestion group;
     options := (options group ++ [o])%list |}.

(** The state of the first loop. *)
Record GroupState := mkGroupState {
  stWarnings : list string;
  stSkipped : nat;
  groupMap : GroupMap
}.

Definition noNumberWarning (row : SourceRow) : string :=
  "Row with Q Text " ++ str1 QUOTE ++ substring0 30 (qText row) ++ "..."
    ++ str1 QUOTE ++ " has no Q # - skipped".

Definition notMCWarning (row : SourceRow) : string :=
  "Row with Q# " ++ str1 QUOTE ++ qNumber row ++ str1 QUOTE ++ " has type "
    ++ str1 QUOTE ++ qType row ++ str1 QUOTE ++ " (not MC) - skipped".

(** One iteration of [for (const row of rows)].  The group taken from the
    map is the object the map holds, so the [push] on its options shows in
    the map: the entry is replaced where it stands. *)
Definition groupRow (st : GroupState) (row : SourceRow) : GroupState :=
  let qNumber := trim (qNumber row) in
  if isEmpty qNumber then
    mkGroupState (stWarnings st ++ [noNumberWarning row])%list
      (S (stSkipped st)) (groupMap st)
  else
    let qType := toUpperCase (trim (qType row)) in
    if negb (String.eqb qType "MC") then
      mkGroupState (stWarnings st ++ [notMCWarning row])%list
        (S (stSkipped st)) (groupMap st)
    else
      let groupKey := qNumber in
      let isCorrect :=
        String.eqb (toLowerCase (trim (answerMatch row))) "correct" in
      let m1 :=
        if negb (mapHas groupKey (groupMap st))
        then mapSet groupKey (mkQuestionGroup (qText row) EmptyString [])
               (groupMap st)
        else groupMap st in
      let m2 :=
        match mapGet groupKey m1 with
        | Some group =>
            mapSet groupKey
              (pushOption group (mkQOption (answer row) isCorrect (notes row)))
              m1
        | None => m1
        end in
      mkGroupState (stWarnings st) (stSkipped st) m2.

Definition correctCount (group : QuestionGroup) : nat :=
  List.length (filter isCorrect (options group)).

Definition questionPreview (group : QuestionGroup) : string :=
  substring0 50 (gText group ++ " " ++ gQuestion group) ++ "...".

(** What the second loop pushes for one group. *)
Definition groupWarning (group : QuestionGroup) : list string :=
  let n := correctCount group in
  if Nat.eqb n 0 then
    ["Question " ++ str1 QUOTE ++ questionPreview group ++ str1 QUOTE
       ++ " has no correct answer"]
  else if Nat.ltb 1 n then
    ["Question " ++ str1 QUOTE ++ questionPreview group ++ str1 QUOTE
       ++ " has " ++ natToString n ++ " correct answers"]
  else [].

Record Grouping := mkGrouping {
  groups : list QuestionGroup;
  grWarnings : list string;
  skipped : nat
}.

Definition groupQuestions (rows : list SourceRow) : Grouping :=
  let st := fold_left groupRow rows (mkGroupState [] 0 []) in
  let groups := map snd (groupMap st) in
  mkGrouping groups
    (fold_left (fun w group => (w ++ groupWarning group)%list) groups
       (stWarnings st))
    (stSkipped st).

(** ** escapeCSV and generateD2LCSV *)

Definition hasSpecial (value : string) : bool :=
  includes COMMA value || includes QUOTE value || includes LF value.

Definition escapeCSV (value : string) : string :=
  if hasSpecial value
  then str1 QUOTE ++ doubleQuotes value ++ str1 QUOTE
  else value.

Definition weightOf (option : QOption) : JSNumber :=
  if isCorrect option then integer 100 else integer 0.

Definition optionLine (option : QOption) : string :=
  let weight := weightOf option in
  let answer := escapeCSV (optAnswer option) in
  let feedback := escapeCSV (feedback option) in
  "Option," ++ numberToString weight ++ "," ++ answer ++ ",," ++ feedback.

Definition questionTextLine (group : QuestionGroup) : string :=
  let fullText := trim (gText group) in
  "QuestionText," ++ escapeCSV fullText ++ ",,,".

Definition pointsLine (points : JSNumber) : string :=
  "Points," ++ numberToString points ++ ",,,".

(** The two variables the loops of [generateD2LCSV] update. *)
Record EmitState := mkEmitState {
  lines : list string;
  emitted : nat
}.

Definition emitOption (st : EmitState) (option : QOption) : EmitState :=
  mkEmitState (lines st ++ [optionLine option])%list (S (emitted st)).

Definition emitGroup (points : JSNumber) (st : EmitState)
    (group : QuestionGroup) : EmitState :=
  let st1 :=
    mkEmitState (lines st ++ ["NewQuestion,MC,,,"])%list (emitted st) in
  let st2 :=
    mkEmitState (lines st1 ++ [questionTextLine group])%list (emitted st1) in
  let st3 :=
    mkEmitState (lines st2 ++ [pointsLine points])%list (emitted st2) in
  let st4 := fold_left emitOption (options group) st3 in
  mkEmitState (lines st4 ++ [",,,,"])%list (emitted st4).

(** [points] defaults to 1 when the caller leaves it out. *)
Definition generateD2LCSV (groups : list QuestionGroup) (points : JSNumber)
  : string * nat :=
  let st := fold_left (emitGroup points) groups (mkEmitState [] 0) in
  (join (str1 LF) (lines st), emitted st).

(** ** convertToD2L *)

Definition missingColumnsMessage (missing : list string) : string :=
  "Missing required columns: " ++ join ", " missing.

Definition noQuestionsMessage : string :=
  "No valid MC questions found in the input file".

Definition convertToD2L (csvContent : string) (points : JSNumber)
  : Outcome ConversionResult :=
  match parseCSV csvContent with
  | Threw message => Threw message
  | Returned (headers, rows) =>
      let validation := validateColumns headers in
      if negb (valid validation) then
        Threw (missingColumnsMessage (missing validation))
      else
        let sourceRows := loadSourceRows rows in
        let grouping := groupQuestions sourceRows in
        if Nat.eqb (List.length (groups grouping)) 0 then
          Threw noQuestionsMessage
        else
          let (csv, optionsCount) := generateD2LCSV (groups grouping) points in
          Returned
            {| csvContent := csv;
               questionsCount := List.length (groups grouping);
               optionsCount := optionsCount;
               warnings := grWarnings grouping;
               skippedRows := skipped grouping |}
  end.


(** ** ConversionForm: the name of the downloaded file *)

Fixpoint dropChars (n : nat) (s : string) : string :=
  match n, s with
  | S n', String _ s' => dropChars n' s'
  | _, _ => s
  end.

(** [s.replace(pattern, '')] with a text as pattern: the first occurrence of
    the pattern is taken out. *)
Fixpoint removeFirst (pattern s : string) : string :=
  if String.prefix pattern s then dropChars (String.length pattern) s
  else
    match s with
    | EmptyString => EmptyString
    | String c s' => String c (removeFirst pattern s')
    end.

(** The value given to [link.download] in [handleDownload]. *)
Definition downloadName (fileName : string) : string :=
  removeFirst ".csv" fileName ++ "_D2L.csv".

(** * Notions used to state the properties *)

(** ** Written fields *)

Definition startsWithQuote (s : string) : bool :=
  match s with
  | EmptyString => false
  | String c _ => Ascii.eqb c QUOTE
  end.

(** The body of a quoted field, after its opening quote: quotes come in
    pairs, except the closing one, which ends the text. *)
Fixpoint quotedBody (s : string) : bool :=
  match s with
  | EmptyString => false
  | String c s' =>
      if Ascii.eqb c QUOTE then
        match s' with
        | EmptyString => true
        | String d s'' => Ascii.eqb d QUOTE && quotedBody s''
        end
      else quotedBody s'
  end.

(** A written field is well escaped when it holds no comma, quote or line
    feed at all, or is a quoted field. *)
Definition wellEscaped (field : string) : bool :=
  if hasSpecial field then
    match field with
    | EmptyString => false
    | String c body => Ascii.eqb c QUOTE && quotedBody body
    end
  else true.

(** The characters of a count written in decimal. *)
Definition isDigit (c : ascii) : bool :=
  let n := nat_of_ascii c in
  ((48 <=? n) && (n <=? 57))%nat.

(** The characters that a written number can hold: digits, the signs, the
    point, the exponent mark and the letters of NaN and Infinity. *)
Definition isNumberChar (c : ascii) : bool :=
  isDigit c || includes c "+-.eNaInfinity".

(** The lines of one question block. *)
Definition groupLines (points : JSNumber) (group : QuestionGroup)
  : list string :=
  (["NewQuestion,MC,,,"; questionTextLine group; pointsLine points]
     ++ map optionLine (options group) ++ [",,,,"])%list.

(** The sum of the lengths of the option sequences. *)
Definition totalOptions (groups : list QuestionGroup) : nat :=
  list_sum (map (fun g => List.length (options g)) groups).

(** Every field value that [parseCSV] returns for a text, row after row. *)
Definition parsedValues (csvContent : string) : list string :=
  match parseCSV csvContent with
  | Returned (_, rows) => flat_map (map snd) rows
  | Threw _ => []
  end.

(** ** Rows and groups *)

(** A row the grouper keeps: non-empty trimmed number and type MC. *)
Definition accepted (row : SourceRow) : bool :=
  negb (isEmpty (trim (qNumber row)))
  && String.eqb (toUpperCase (trim (qType row))) "MC".

(** A row the grouper skips. *)
Definition rejected (row : SourceRow) : bool := negb (accepted row).

(** The key of a row: its trimmed question number. *)
Definition keyOf (row : SourceRow) : string := trim (qNumber row).

Definition answerIsCorrect (row : SourceRow) : bool :=
  String.eqb (toLowerCase (trim (answerMatch row))) "correct".

(** The option a kept row contributes. *)
Definition optionOf (row : SourceRow) : QOption :=
  mkQOption (answer row) (answerIsCorrect row) (notes row).

(** The warning a skipped row leaves. *)
Definition rowWarning (row : SourceRow) : string :=
  if isEmpty (trim (qNumber row)) then noNumberWarning row
  else notMCWarning row.

Definition sameKey (key : string) (k : string) : bool := String.eqb k key.

Definition hasKey (key : string) (keys : list string) : bool :=
  existsb (sameKey key) keys.

(** The keys of a list in the order of their first occurrence. *)
Fixpoint firstOccurrences (keys : list string) : list string :=
  match keys with
  | [] => []
  | k :: keys' =>
      k :: filter (fun k' => negb (sameKey k k')) (firstOccurrences keys')
  end.

(** The kept rows that carry a given key, in input order. *)
Definition rowsOf (key : string) (rows : list SourceRow) : list SourceRow :=
  filter (fun r => sameKey key (keyOf r)) (filter accepted rows).

(** The stem of the first kept row with the key. *)
Definition stemOf (key : string) (rows : list SourceRow) : string :=
  match rowsOf key rows with
  | [] => EmptyString
  | first :: _ => qText first
  end.

(** The group that the specification assigns to a key. *)
Definition groupOf (key : string) (rows : list SourceRow) : QuestionGroup :=
  mkQuestionGroup (stemOf key rows) EmptyString
    (map optionOf (rowsOf key rows)).

Definition keysOf (rows : list SourceRow) : list string :=
  firstOccurrences (map keyOf (filter accepted rows)).

Definition groupsOf (rows : list SourceRow) : list QuestionGroup :=
  map (fun k => groupOf k rows) (keysOf rows).

Definition keyed (G : string -> QuestionGroup) (k : string)
  : string * QuestionGroup := (k, G k).

(** The map that the specification expects after the first loop. *)
Definition groupedMap (rows : list SourceRow) : GroupMap :=
  map (keyed (fun k => groupOf k rows)) (keysOf rows).

(** ** The conversion as a whole *)

(** The typed rows that [convertToD2L] hands to the grouper. *)
Definition sourceRowsOf (csvContent : string) : list SourceRow :=
  match parseCSV csvContent with
  | Returned (_, rows) => loadSourceRows rows
  | Threw _ => []
  end.

(** The header normalised as [validateColumns] does. *)
Definition normalized (headers : list string) : list string :=
  map (fun h => toLowerCase (trim h)) headers.

(** The required columns that no header matches. *)
Definition missingColumns (headers : list string) : list string :=
  filter (fun required => negb (columnPresent (normalized headers) required))
    REQUIRED_COLUMNS.




(** ** Sample inputs *)

(** A multiple-choice row without prompt. *)
Definition mcRow (number stem answer mark note : string) : SourceRow :=
  mkSourceRow number "MC" stem EmptyString answer mark note.

(** Rows of two questions, interleaved, and a row without number. *)
Definition interleavedRows : list SourceRow :=
  [mcRow "b" "second?" "b1" "no" "n1";
   mcRow "a" "first?" "a1" "no" "n2";
   mcRow " b " "other" "b2" "correct" "n3";
   mcRow " " "lost" "x" "correct" "n4";
   mcRow "a" "first?" "a2" "Correct" "n5"].

(** Two questions with the same stem, and a second row of the first
    question with another stem. *)
Definition sameStemRows : list SourceRow :=
  [mcRow " 7" "stem A" "x" "Correct" "n1";
   mcRow "8" "stem A" "z" "no" "n3";
   mcRow "7 " "stem B" "y" "no" "n2"].

(** A header row with all the columns, then one multiple-choice row and one
    short-answer row. *)
Definition mixedInput : string :=
  "Q #,Q Type,Q Text,Answer,Answer Match,Notes" ++ str1 LF
    ++ "1,MC,What?,Yes,Correct,fine" ++ str1 LF
    ++ "2,SA,Why?,Because,Correct,skip".

(** A header row without the Notes column, and one data row. *)
Definition noNotesInput : string :=
  "Q #,Q Type,Q Text,Answer,Answer Match" ++ str1 LF
    ++ "1,MC,What?,Yes,Correct".

(** All the columns, and data rows that are all skipped. *)
Definition allSkippedInput : string :=
  "Q #,Q Type,Q Text,Answer,Answer Match,Notes" ++ str1 LF
    ++ ",MC,What?,Yes,Correct,no number" ++ str1 LF
    ++ "2,SA,Why?,Because,Correct,not MC".

(** Two inputs that differ under the Question column only. *)
Definition promptInputA : string :=
  "Q #,Q Type,Q Text,Question,Answer,Answer Match,Notes" ++ str1 LF
    ++ "1,MC,What?,first prompt,Yes,Correct,fine" ++ str1 LF
    ++ "1,MC,What?,,No,,bad".


(** ** Lines of a text *)

Definition CRLF : string := String CR (String LF EmptyString).

(** The text ends with a carriage return. *)
Fixpoint endsWithCR (s : string) : bool :=
  match s with
  | EmptyString => false
  | String c EmptyString => Ascii.eqb c CR
  | String _ s' => endsWithCR s'
  end.

(** A line that a text can hold between two line feeds and give back whole:
    no line feed inside, no carriage return at its end. *)
Definition wholeLine (line : string) : bool :=
  negb (includes LF line) && negb (endsWithCR line).

Definition startsWithLF (s : string) : bool :=
  match s with
  | EmptyString => false
  | String c _ => Ascii.eqb c LF
  end.

(** Every character of the text passes the test. *)
Fixpoint allChars (p : ascii -> bool) (s : string) : bool :=
  match s with
  | EmptyString => true
  | String c s' => p c && allChars p s'
  end.

(** ** Rows *)

(** The row that pairs the header at each place with the field at the same
    place, and with the empty text where the fields have run out. *)
Definition rowByPosition (headers values : list string) : RawRow :=
  combine headers
    (map (fun j => nth j values EmptyString) (seq 0 (List.length headers))).

(** The key is an array index. *)
Definition isIndex (key : string) : bool :=
  match arrayIndex key with
  | Some _ => true
  | None => false
  end.

(** A name that a row keeps in the order of its creation: not the key
    __proto__, and not an array index. *)
Definition plainName (name : string) : bool :=
  negb (String.eqb name "__proto__") && negb (isIndex name).

(** The order in which [Object.keys] lists two keys of a row: an array
    index before a larger one and before any other name, and no other name
    before an array index. *)
Definition listedBefore (a b : string) : Prop :=
  match arrayIndex a, arrayIndex b with
  | Some m, Some n => (m < n)%N
  | Some _, None => True
  | None, Some _ => False
  | None, None => True
  end.

(** The last place at which a name stands in a list. *)
Fixpoint lastIndexOf (name : string) (names : list string) : option nat :=
  match names with
  | [] => None
  | h :: names' =>
      match lastIndexOf name names' with
      | Some j => Some (S j)
      | None => if String.eqb h name then Some 0 else None
      end
  end.

(** The first place at which a header names a column, the header trimmed
    and the case ignored. *)
Fixpoint firstMatch (columnName : string) (headers : list string)
  : option nat :=
  match headers with
  | [] => None
  | h :: headers' =>
      if String.eqb (toLowerCase (trim h)) (toLowerCase columnName)
      then Some 0
      else option_map S (firstMatch columnName headers')
  end.

(** ** Fields of a line *)

(** The fields that [parseCSVLine] returns from the final state of its
    loop. *)
Definition fieldsOf (st : LineState) : list string :=
  (result st ++ [current st])%list.

(** How many times a character stands in a text. *)
Fixpoint occurrences (c : ascii) (s : string) : nat :=
  match s with
  | EmptyString => 0
  | String d s' => (if Ascii.eqb d c then 1 else 0) + occurrences c s'
  end.

(** ** Names *)

(** The pattern stands somewhere in the text. *)
Fixpoint occursIn (pattern s : string) : bool :=
  String.prefix pattern s
  || match s with
     | EmptyString => false
     | String _ s' => occursIn pattern s'
     end.

(** ** Values without line breaks *)

(** A value that holds neither line feed nor carriage return. *)
Definition oneLine (value : string) : bool :=
  negb (includes LF value) && negb (includes CR value).

(** A group whose trimmed stem, answers and feedbacks are such values. *)
Definition oneLineGroup (group : QuestionGroup) : bool :=
  oneLine (trim (gText group))
  && forallb (fun o => oneLine (optAnswer o) && oneLine (feedback o))
       (options group).

(** * Properties *)

(** ** Strings *)

Lemma append_empty_r (s : string) : s ++ EmptyString = s.
Proof. induction s as [|c s IH]; simpl; [reflexivity | now rewrite IH]. Qed.

Lemma append_assoc (s t u : string) : (s ++ t) ++ u = s ++ (t ++ u).
Proof. induction s as [|c s IH]; simpl; [reflexivity | now rewrite IH]. Qed.

Lemma append_str1 (c : ascii) (s : string) : str1 c ++ s = String c s.
Proof. reflexivity. Qed.

Lemma includes_append (c : ascii) (s t : string) :
  includes c (s ++ t) = includes c s || includes c t.
Proof.
  induction s as [|d s IH]; simpl; [reflexivity|].
  now rewrite IH, orb_assoc.
Qed.

(** ** The field parser *)

Section FieldParser.

Variables (res : list string) (cur : string).

(** Outside quotes a comma closes the field. *)
Lemma parseLoop_comma (rest : string) :
  parseLoop (String COMMA rest) (mkLineState res cur false)
  = parseLoop rest (mkLineState (res ++ [cur])%list EmptyString false).
Proof. reflexivity. Qed.

(** Outside quotes a quote opens a quoted section. *)
Lemma parseLoop_open (rest : string) :
  parseLoop (String QUOTE rest) (mkLineState res cur false)
  = parseLoop rest (mkLineState res cur true).
Proof. reflexivity. Qed.

End FieldParser.

(** Outside quotes, text without comma or quote is appended as it stands. *)
Lemma parseLoop_plain (v rest : string) :
  includes COMMA v = false -> includes QUOTE v = false ->
  forall res cur,
    parseLoop (v ++ rest) (mkLineState res cur false)
    = parseLoop rest (mkLineState res (cur ++ v) false).
Proof.
  induction v as [|c v IH]; intros Hc Hq res cur; simpl.
  - now rewrite append_empty_r.
  - simpl in Hc, Hq. apply orb_false_elim in Hc as [Hc1 Hc2].
    apply orb_false_elim in Hq as [Hq1 Hq2].
    rewrite Hq1, Hc1. rewrite (IH Hc2 Hq2).
    now rewrite append_assoc.
Qed.

(** Inside quotes, the doubled form of [v] followed by a closing quote reads
    back as [v], provided the closing quote is not itself followed by a
    quote. *)
Lemma parseLoop_quoted (v rest : string) :
  startsWithQuote rest = false ->
  forall res cur,
    parseLoop (doubleQuotes v ++ String QUOTE rest) (mkLineState res cur true)
    = parseLoop rest (mkLineState res (cur ++ v) false).
Proof.
  intros Hrest. induction v as [|c v IH]; intros res cur.
  - cbn [doubleQuotes append parseLoop inQuotes].
    rewrite Ascii.eqb_refl. rewrite append_empty_r.
    destruct rest as [|d rest']; [reflexivity|].
    simpl in Hrest. now rewrite Hrest.
  - cbn [doubleQuotes]. destruct (Ascii.eqb c QUOTE) eqn:Hc.
    + apply Ascii.eqb_eq in Hc. subst c.
      cbn [append parseLoop inQuotes result current].
      rewrite !Ascii.eqb_refl. rewrite IH. now rewrite append_assoc.
    + cbn [append parseLoop inQuotes result current]. rewrite Hc.
      rewrite IH. now rewrite append_assoc.
Qed.

(** Inside quotes, text without a quote is accumulated and the section stays
    open. *)
Lemma parseLoop_unterminated (body : string) :
  includes QUOTE body = false ->
  forall res cur,
    parseLoop body (mkLineState res cur true)
    = mkLineState res (cur ++ body) true.
Proof.
  induction body as [|c body IH]; intros Hq res cur; simpl.
  - now rewrite append_empty_r.
  - simpl in Hq. apply orb_false_elim in Hq as [Hq1 Hq2].
    rewrite Hq1, (IH Hq2). now rewrite append_assoc.
Qed.

(** The loop can be cut at any place where no quote follows the cut: only a
    quote is ever looked at ahead. *)
Lemma parseLoop_app_len (n : nat) :
  forall p l st, String.length p <= n -> startsWithQuote l = false ->
    parseLoop (p ++ l) st = parseLoop l (parseLoop p st).
Proof.
  induction n as [|n IH]; intros p l st Hlen Hl.
  - destruct p; [reflexivity | simpl in Hlen; lia].
  - destruct p as [|c p]; [reflexivity|].
    simpl in Hlen. cbn [append parseLoop].
    destruct (inQuotes st).
    + destruct (Ascii.eqb c QUOTE).
      * destruct p as [|d p'].
        -- cbn [append]. destruct l as [|e l']; [reflexivity|].
           simpl in Hl. rewrite Hl. reflexivity.
        -- cbn [append]. destruct (Ascii.eqb d QUOTE).
           ++ apply IH; [simpl in Hlen; lia | exact Hl].
           ++ apply (IH (String d p')); [lia | exact Hl].
      * apply IH; [lia | exact Hl].
    + destruct (Ascii.eqb c QUOTE); [apply IH; [lia | exact Hl]|].
      destruct (Ascii.eqb c COMMA); apply IH; try lia; exact Hl.
Qed.

Lemma parseLoop_app (p l : string) (st : LineState) :
  startsWithQuote l = false ->
  parseLoop (p ++ l) st = parseLoop l (parseLoop p st).
Proof. apply (parseLoop_app_len (String.length p)). lia. Qed.

Lemma includes_startsWithQuote (s : string) :
  includes QUOTE s = false -> startsWithQuote s = false.
Proof.
  destruct s as [|c s]; [reflexivity|]. simpl.
  intros H. now apply orb_false_elim in H as [H _].
Qed.

(** ** Escaping *)

Lemma quotedBody_doubleQuotes (v : string) :
  quotedBody (doubleQuotes v ++ str1 QUOTE) = true.
Proof.
  induction v as [|c v IH]; [reflexivity|].
  cbn [doubleQuotes]. destruct (Ascii.eqb c QUOTE) eqn:Hc.
  - cbn [append quotedBody]. now rewrite !Ascii.eqb_refl, IH.
  - cbn [append quotedBody]. now rewrite Hc.
Qed.

Lemma hasSpecial_false (v : string) :
  hasSpecial v = false ->
  includes COMMA v = false /\ includes QUOTE v = false /\ includes LF v = false.
Proof.
  unfold hasSpecial. intros H.
  apply orb_false_elim in H as [H H3]. apply orb_false_elim in H as [H1 H2].
  auto.
Qed.

Lemma escapeCSV_special (v : string) :
  hasSpecial v = true ->
  escapeCSV v = str1 QUOTE ++ doubleQuotes v ++ str1 QUOTE.
Proof. unfold escapeCSV. now intros ->. Qed.

Lemma escapeCSV_verbatim (v : string) :
  hasSpecial v = false -> escapeCSV v = v.
Proof. unfold escapeCSV. now intros ->. Qed.

Lemma wellEscaped_escapeCSV (v : string) : wellEscaped (escapeCSV v) = true.
Proof.
  destruct (hasSpecial v) eqn:Hs.
  - rewrite (escapeCSV_special v Hs). unfold wellEscaped.
    match goal with |- (if ?b then _ else _) = _ => destruct b end;
      [|reflexivity].
    cbn [str1 append]. rewrite Ascii.eqb_refl.
    apply quotedBody_doubleQuotes.
  - rewrite (escapeCSV_verbatim v Hs). unfold wellEscaped. now rewrite Hs.
Qed.

(** The field parser reads an escaped value back, whatever follows it, as
    long as that is not a quote. *)
Lemma parseLoop_escaped (v rest : string) (res : list string) (cur : string) :
  startsWithQuote rest = false ->
  parseLoop (escapeCSV v ++ rest) (mkLineState res cur false)
  = parseLoop rest (mkLineState res (cur ++ v) false).
Proof.
  intros Hrest. destruct (hasSpecial v) eqn:Hs.
  - rewrite (escapeCSV_special v Hs).
    rewrite !append_assoc. cbn [str1 append].
    rewrite parseLoop_open. now apply parseLoop_quoted.
  - rewrite (escapeCSV_verbatim v Hs).
    apply hasSpecial_false in Hs as (Hc & Hq & _).
    now apply parseLoop_plain.
Qed.

Lemma parseCSVLine_escapeCSV (v : string) : parseCSVLine (escapeCSV v) = [v].
Proof.
  unfold parseCSVLine, lineStart.
  rewrite <- (append_empty_r (escapeCSV v)).
  rewrite parseLoop_escaped by reflexivity. reflexivity.
Qed.

(** ** Written numbers hold no comma, quote or line break *)

Lemma includes_allChars (p : ascii -> bool) (c : ascii) (s : string) :
  p c = false -> allChars p s = true -> includes c s = false.
Proof.
  intros Hc. induction s as [|d s IH]; [reflexivity|].
  cbn [allChars includes]. intros H. apply andb_prop in H as [Hd Hs].
  rewrite (IH Hs), orb_false_r. apply Ascii.eqb_neq. intros ->. congruence.
Qed.

Lemma allChars_append (p : ascii -> bool) (s t : string) :
  allChars p (s ++ t) = allChars p s && allChars p t.
Proof.
  induction s as [|c s IH]; [reflexivity|]. cbn [append allChars].
  now rewrite IH, andb_assoc.
Qed.

Lemma allChars_substring (p : ascii -> bool) (s : string) :
  forall i n, allChars p s = true -> allChars p (String.substring i n s) = true.
Proof.
  induction s as [|c s IH]; intros i n H.
  - destruct i, n; reflexivity.
  - cbn [allChars] in H. apply andb_prop in H as [Hc Hs].
    destruct i as [|i]; cbn [String.substring].
    + destruct n as [|n]; [reflexivity|]. cbn [allChars].
      now rewrite Hc, (IH 0 n Hs).
    + now apply IH.
Qed.

Lemma allChars_zeros (n : nat) : allChars isNumberChar (zeros n) = true.
Proof.
  induction n as [|n IH]; [reflexivity|]. cbn [zeros allChars]. exact IH.
Qed.

Lemma allChars_uint (d : Decimal.uint) :
  allChars isDigit (NilEmpty.string_of_uint d) = true.
Proof.
  induction d; cbn [NilEmpty.string_of_uint allChars]; try reflexivity;
    exact IHd.
Qed.

Lemma allChars_uint_zero (d : Decimal.uint) :
  allChars isDigit (NilZero.string_of_uint d) = true.
Proof.
  unfold NilZero.string_of_uint.
  destruct d eqn:E; try (rewrite <- E; apply allChars_uint). reflexivity.
Qed.

Lemma allChars_weaken (p q : ascii -> bool) (s : string) :
  (forall c, p c = true -> q c = true) ->
  allChars p s = true -> allChars q s = true.
Proof.
  intros Hpq. induction s as [|c s IH]; [reflexivity|]. cbn [allChars].
  intros H. apply andb_prop in H as [Hc Hs]. now rewrite (Hpq c Hc), IH.
Qed.

Lemma isDigit_isNumberChar (c : ascii) :
  isDigit c = true -> isNumberChar c = true.
Proof. unfold isNumberChar. now intros ->. Qed.

Lemma allChars_digitsOf (s : positive) :
  allChars isNumberChar (digitsOf s) = true.
Proof.
  apply (allChars_weaken isDigit); [apply isDigit_isNumberChar|].
  apply allChars_uint.
Qed.

Lemma allChars_exponentToString (e : Z) :
  allChars isNumberChar (exponentToString e) = true.
Proof.
  unfold exponentToString. rewrite allChars_append.
  rewrite (allChars_weaken isDigit isNumberChar _ isDigit_isNumberChar
             (allChars_uint_zero _)).
  now destruct (0 <? e)%Z.
Qed.

Lemma allChars_finiteToString (s : positive) (n : Z) :
  allChars isNumberChar (finiteToString s n) = true.
Proof.
  pose proof (allChars_digitsOf s) as Hd. unfold finiteToString.
  repeat match goal with
         | |- context [if ?b then _ else _] => destruct b
         end;
    rewrite ?allChars_append, ?allChars_zeros, ?allChars_exponentToString,
      ?(allChars_substring _ _ _ _ Hd), ?Hd; reflexivity.
Qed.

(** Every character of a written number is a digit, a sign, the point, the
    exponent mark or a letter of NaN and Infinity. *)
Lemma allChars_numberToString (x : JSNumber) :
  allChars isNumberChar (numberToString x) = true.
Proof.
  destruct x as [|negative|negative|negative s n]; cbn [numberToString].
  - reflexivity.
  - now destruct negative.
  - reflexivity.
  - rewrite allChars_append, allChars_finiteToString. now destruct negative.
Qed.

Lemma includes_natToString (c : ascii) (n : nat) :
  isDigit c = false -> includes c (natToString n) = false.
Proof.
  intros Hc. apply (includes_allChars isDigit); [exact Hc|].
  apply allChars_uint_zero.
Qed.

Lemma includes_numberToString (c : ascii) (x : JSNumber) :
  isNumberChar c = false -> includes c (numberToString x) = false.
Proof.
  intros Hc. apply (includes_allChars isNumberChar); [exact Hc|].
  apply allChars_numberToString.
Qed.

Lemma hasSpecial_numberToString (x : JSNumber) :
  hasSpecial (numberToString x) = false.
Proof.
  unfold hasSpecial.
  now rewrite !includes_numberToString by reflexivity.
Qed.

(** Outside quotes, a plain field followed by a comma is pushed whole. *)
Lemma parseLoop_field (v rest : string) (res : list string) (cur : string) :
  includes COMMA v = false -> includes QUOTE v = false ->
  parseLoop (v ++ String COMMA rest) (mkLineState res cur false)
  = parseLoop rest
      (mkLineState (res ++ [(cur ++ v)%string])%list EmptyString false).
Proof.
  intros Hc Hq. rewrite (parseLoop_plain v _ Hc Hq). apply parseLoop_comma.
Qed.

Lemma parseLoop_escaped_field (v rest : string) (res : list string)
    (cur : string) :
  parseLoop (escapeCSV v ++ String COMMA rest) (mkLineState res cur false)
  = parseLoop rest
      (mkLineState (res ++ [(cur ++ v)%string])%list EmptyString false).
Proof.
  rewrite parseLoop_escaped by reflexivity. apply parseLoop_comma.
Qed.

Lemma parseLoop_escaped_last (v : string) (res : list string) (cur : string) :
  parseLoop (escapeCSV v) (mkLineState res cur false)
  = mkLineState res (cur ++ v) false.
Proof.
  rewrite <- (append_empty_r (escapeCSV v)).
  now rewrite parseLoop_escaped by reflexivity.
Qed.

Lemma parseCSVLine_optionLine (o : QOption) :
  parseCSVLine (optionLine o)
  = ["Option"; numberToString (weightOf o); optAnswer o; EmptyString;
     feedback o].
Proof.
  unfold parseCSVLine, optionLine, lineStart.
  pose proof (hasSpecial_numberToString (weightOf o)) as Hw.
  apply hasSpecial_false in Hw as (Hc & Hq & _).
  change (parseLoop _ _) with
    (parseLoop
       ("Option"
          ++ String COMMA
               (numberToString (weightOf o)
                  ++ String COMMA
                       (escapeCSV (optAnswer o)
                          ++ String COMMA
                               (EmptyString
                                  ++ String COMMA (escapeCSV (feedback o))))))
       (mkLineState [] EmptyString false)).
  rewrite parseLoop_field by reflexivity.
  rewrite (parseLoop_field _ _ _ _ Hc Hq).
  rewrite parseLoop_escaped_field.
  rewrite parseLoop_field by reflexivity.
  rewrite parseLoop_escaped_last.
  reflexivity.
Qed.

Lemma parseCSVLine_questionTextLine (g : QuestionGroup) :
  parseCSVLine (questionTextLine g)
  = ["QuestionText"; trim (gText g); EmptyString; EmptyString; EmptyString].
Proof.
  unfold parseCSVLine, questionTextLine, lineStart.
  change (parseLoop _ _) with
    (parseLoop
       ("QuestionText"
          ++ String COMMA
               (escapeCSV (trim (gText g))
                  ++ String COMMA
                       (EmptyString
                          ++ String COMMA
                               (EmptyString ++ String COMMA EmptyString))))
       (mkLineState [] EmptyString false)).
  rewrite parseLoop_field by reflexivity.
  rewrite parseLoop_escaped_field.
  rewrite !parseLoop_field by reflexivity.
  reflexivity.
Qed.

Lemma parseCSVLine_pointsLine (points : JSNumber) :
  parseCSVLine (pointsLine points)
  = ["Points"; numberToString points; EmptyString; EmptyString; EmptyString].
Proof.
  unfold parseCSVLine, pointsLine, lineStart.
  pose proof (hasSpecial_numberToString points) as Hw.
  apply hasSpecial_false in Hw as (Hc & Hq & _).
  change (parseLoop _ _) with
    (parseLoop
       ("Points"
          ++ String COMMA
               (numberToString points
                  ++ String COMMA
                       (EmptyString
                          ++ String COMMA
                               (EmptyString ++ String COMMA EmptyString))))
       (mkLineState [] EmptyString false)).
  rewrite parseLoop_field by reflexivity.
  rewrite (parseLoop_field _ _ _ _ Hc Hq).
  rewrite !parseLoop_field by reflexivity.
  reflexivity.
Qed.

(** ** The emitter writes the lines of each group in turn *)

Lemma fold_emitOption (opts : list QOption) :
  forall st,
    fold_left emitOption opts st
    = mkEmitState (lines st ++ map optionLine opts)%list
        (emitted st + List.length opts).
Proof.
  induction opts as [|o opts IH]; intros [ls n]; cbn [fold_left].
  - cbn. now rewrite app_nil_r, Nat.add_0_r.
  - rewrite IH. cbn [lines emitted emitOption map List.length].
    rewrite <- app_assoc. f_equal. lia.
Qed.

Lemma totalOptions_cons (g : QuestionGroup) (gs : list QuestionGroup) :
  totalOptions (g :: gs) = List.length (options g) + totalOptions gs.
Proof. reflexivity. Qed.

Lemma fold_emitGroup (points : JSNumber) (gs : list QuestionGroup) :
  forall st,
    fold_left (emitGroup points) gs st
    = mkEmitState (lines st ++ flat_map (groupLines points) gs)%list
        (emitted st + totalOptions gs).
Proof.
  induction gs as [|g gs IH]; intros [ls n]; cbn [fold_left].
  - cbn. now rewrite app_nil_r, Nat.add_0_r.
  - rewrite IH. unfold emitGroup. rewrite fold_emitOption.
    cbn [lines emitted flat_map]. rewrite totalOptions_cons.
    unfold groupLines. f_equal; [|lia].
    rewrite <- !app_assoc. reflexivity.
Qed.

Lemma generateD2LCSV_lines (groups : list QuestionGroup) (points : JSNumber) :
  generateD2LCSV groups points
  = (join (str1 LF) (flat_map (groupLines points) groups), totalOptions groups).
Proof. unfold generateD2LCSV. now rewrite fold_emitGroup. Qed.

(** ** Grouping: what the first loop builds *)

Local Open Scope list_scope.

Lemma sameKey_true (key k : string) : sameKey key k = true <-> k = key.
Proof. apply String.eqb_eq. Qed.

Lemma sameKey_false (key k : string) : sameKey key k = false <-> k <> key.
Proof. apply String.eqb_neq. Qed.

Lemma hasKey_In (key : string) (keys : list string) :
  hasKey key keys = true <-> In key keys.
Proof.
  unfold hasKey. rewrite existsb_exists. split.
  - intros (k & Hin & Hk). apply sameKey_true in Hk. now subst.
  - intros Hin. exists key. split; [exact Hin | now apply sameKey_true].
Qed.

Lemma hasKey_not_In (key : string) (keys : list string) :
  hasKey key keys = false <-> ~ In key keys.
Proof.
  rewrite <- hasKey_In. destruct (hasKey key keys); split; congruence.
Qed.

Lemma In_firstOccurrences (k : string) (keys : list string) :
  In k (firstOccurrences keys) <-> In k keys.
Proof.
  induction keys as [|k0 keys IH]; [reflexivity|].
  cbn [firstOccurrences In]. rewrite filter_In, IH.
  destruct (String.eqb_spec k k0) as [->|Hne].
  - split; auto.
  - assert (sameKey k0 k = false) as -> by now apply sameKey_false.
    split; [intros [H|[H _]]; auto | intros [H|H]; auto].
Qed.

Lemma NoDup_firstOccurrences (keys : list string) :
  NoDup (firstOccurrences keys).
Proof.
  induction keys as [|k keys IH]; [constructor|].
  cbn [firstOccurrences]. constructor.
  - rewrite filter_In. intros [_ H].
    assert (sameKey k k = true) as E by now apply sameKey_true.
    rewrite E in H. discriminate.
  - now apply NoDup_filter.
Qed.

Lemma firstOccurrences_snoc (keys : list string) (k : string) :
  firstOccurrences (keys ++ [k])
  = if hasKey k keys then firstOccurrences keys
    else (firstOccurrences keys ++ [k])%list.
Proof.
  induction keys as [|k0 keys IH]; [reflexivity|].
  cbn [app firstOccurrences hasKey existsb]. rewrite IH. fold (hasKey k keys).
  destruct (sameKey k k0) eqn:E0; cbn [orb].
  - apply sameKey_true in E0. subst k0.
    destruct (hasKey k keys); [reflexivity|].
    rewrite filter_app. cbn [filter].
    assert (sameKey k k = true) as -> by now apply sameKey_true.
    cbn [negb]. now rewrite app_nil_r.
  - destruct (hasKey k keys); [reflexivity|].
    rewrite filter_app. cbn [filter].
    assert (sameKey k0 k = false) as ->.
    { apply sameKey_false. apply sameKey_false in E0. congruence. }
    reflexivity.
Qed.

(** *** The insertion-ordered map *)

Lemma mapHas_keyed (G : string -> QuestionGroup) (key : string)
    (keys : list string) :
  mapHas key (map (keyed G) keys) = hasKey key keys.
Proof.
  unfold mapHas, hasKey.
  induction keys as [|k keys IH]; [reflexivity|].
  cbn [map existsb keyed fst]. now rewrite IH.
Qed.

Lemma mapGet_keyed (G : string -> QuestionGroup) (key : string)
    (keys : list string) :
  In key keys -> mapGet key (map (keyed G) keys) = Some (G key).
Proof.
  induction keys as [|k keys IH]; intros Hin; [contradiction|].
  cbn [map keyed mapGet]. destruct (String.eqb_spec k key) as [->|Hne].
  - reflexivity.
  - destruct Hin as [H|H]; [contradiction | now apply IH].
Qed.

Lemma mapGet_not_In (G : string -> QuestionGroup) (key : string)
    (keys : list string) :
  ~ In key keys -> mapGet key (map (keyed G) keys) = None.
Proof.
  induction keys as [|k keys IH]; intros Hin; [reflexivity|].
  cbn [map keyed mapGet]. destruct (String.eqb_spec k key) as [->|Hne].
  - exfalso. apply Hin. now left.
  - apply IH. intros H. apply Hin. now right.
Qed.

Lemma mapSet_keyed (G : string -> QuestionGroup) (key : string)
    (g : QuestionGroup) (keys : list string) :
  NoDup keys -> In key keys ->
  mapSet key g (map (keyed G) keys)
  = map (keyed (fun k => if sameKey key k then g else G k)) keys.
Proof.
  induction keys as [|k keys IH]; intros Hnd Hin; [contradiction|].
  inversion Hnd as [|? ? Hk Hnd']; subst.
  cbn [map]. unfold keyed at 1. cbn [mapSet].
  destruct (String.eqb_spec k key) as [->|Hne].
  - f_equal.
    + unfold keyed, sameKey. now rewrite String.eqb_refl.
    + apply map_ext_in. intros k' Hk'. unfold keyed.
      assert (sameKey key k' = false) as ->; [|reflexivity].
      apply sameKey_false. intros ->. contradiction.
  - f_equal.
    + unfold keyed.
      assert (sameKey key k = false) as -> by now apply sameKey_false.
      reflexivity.
    + apply IH; [exact Hnd'|].
      destruct Hin as [H|H]; [contradiction | exact H].
Qed.

Lemma mapSet_fresh (key : string) (g : QuestionGroup) (m : GroupMap) :
  mapHas key m = false -> mapSet key g m = (m ++ [(key, g)])%list.
Proof.
  induction m as [|[k g0] m IH]; intros H; [reflexivity|].
  cbn [mapHas existsb fst] in H. apply orb_false_elim in H as [H1 H2].
  cbn [mapSet app]. rewrite H1. f_equal. now apply IH.
Qed.

Lemma mapGet_last (key : string) (g : QuestionGroup) (m : GroupMap) :
  mapHas key m = false -> mapGet key (m ++ [(key, g)]) = Some g.
Proof.
  induction m as [|[k g0] m IH]; intros H.
  - cbn. now rewrite String.eqb_refl.
  - cbn [mapHas existsb fst] in H. apply orb_false_elim in H as [H1 H2].
    cbn [mapGet app]. rewrite H1. now apply IH.
Qed.

Lemma mapSet_last (key : string) (g g' : QuestionGroup) (m : GroupMap) :
  mapHas key m = false ->
  mapSet key g' (m ++ [(key, g)]) = (m ++ [(key, g')])%list.
Proof.
  induction m as [|[k g0] m IH]; intros H.
  - cbn. now rewrite String.eqb_refl.
  - cbn [mapHas existsb fst] in H. apply orb_false_elim in H as [H1 H2].
    cbn [mapSet app]. rewrite H1. f_equal. now apply IH.
Qed.

(** *** The groups when one more row arrives *)

Lemma rowsOf_nil_iff (key : string) (rows : list SourceRow) :
  rowsOf key rows = [] <-> ~ In key (map keyOf (filter accepted rows)).
Proof.
  unfold rowsOf. induction (filter accepted rows) as [|r rs IH].
  - cbn. tauto.
  - cbn [filter map In]. destruct (sameKey key (keyOf r)) eqn:E.
    + apply sameKey_true in E. split; [discriminate | intros H; exfalso; auto].
    + apply sameKey_false in E. rewrite IH. tauto.
Qed.

Section OneMoreRow.

Variables (rows : list SourceRow) (row : SourceRow).

Lemma rowsOf_snoc (key : string) :
  rowsOf key (rows ++ [row])
  = rowsOf key rows
      ++ (if accepted row && sameKey key (keyOf row) then [row] else []).
Proof.
  unfold rowsOf. rewrite !filter_app. cbn [filter].
  destruct (accepted row); cbn [filter andb]; [|reflexivity].
  destruct (sameKey key (keyOf row)); reflexivity.
Qed.

(** The group of a key is untouched by a row that is skipped or carries
    another key. *)
Lemma groupOf_snoc_other (key : string) :
  accepted row && sameKey key (keyOf row) = false ->
  groupOf key (rows ++ [row]) = groupOf key rows.
Proof.
  intros H. unfold groupOf, stemOf. rewrite rowsOf_snoc, H.
  now rewrite app_nil_r.
Qed.

Section Skipped.

Hypothesis Hskipped : accepted row = false.

Lemma keysOf_snoc_rejected : keysOf (rows ++ [row]) = keysOf rows.
Proof.
  unfold keysOf. rewrite filter_app. cbn [filter]. rewrite Hskipped.
  now rewrite app_nil_r.
Qed.

Lemma groupedMap_snoc_rejected : groupedMap (rows ++ [row]) = groupedMap rows.
Proof.
  unfold groupedMap. rewrite keysOf_snoc_rejected.
  apply map_ext. intros k. unfold keyed. f_equal.
  apply groupOf_snoc_other. now rewrite Hskipped.
Qed.

End Skipped.

Section Kept.

Hypothesis Hkept : accepted row = true.

Lemma keysOf_snoc_accepted :
  keysOf (rows ++ [row])
  = if hasKey (keyOf row) (map keyOf (filter accepted rows))
    then keysOf rows else keysOf rows ++ [keyOf row].
Proof.
  unfold keysOf. rewrite filter_app. cbn [filter]. rewrite Hkept.
  rewrite map_app. cbn [map]. apply firstOccurrences_snoc.
Qed.

Lemma sameKey_own : sameKey (keyOf row) (keyOf row) = true.
Proof. now apply sameKey_true. Qed.

Section KnownKey.

Hypothesis Hknown : In (keyOf row) (map keyOf (filter accepted rows)).

Lemma groupOf_snoc_known :
  groupOf (keyOf row) (rows ++ [row])
  = pushOption (groupOf (keyOf row) rows) (optionOf row).
Proof.
  unfold groupOf, stemOf, pushOption. cbn [gText gQuestion options].
  rewrite rowsOf_snoc, Hkept, sameKey_own.
  cbn [andb]. rewrite map_app. cbn [map].
  destruct (rowsOf (keyOf row) rows) as [|r0 rs] eqn:E; [|reflexivity].
  apply rowsOf_nil_iff in E. contradiction.
Qed.

(** The push on the group of a known key gives the map of the longer list. *)
Lemma groupedMap_snoc_known :
  mapSet (keyOf row) (pushOption (groupOf (keyOf row) rows) (optionOf row))
    (groupedMap rows)
  = groupedMap (rows ++ [row]).
Proof.
  unfold groupedMap. rewrite keysOf_snoc_accepted.
  assert (hasKey (keyOf row) (map keyOf (filter accepted rows)) = true) as ->
    by now apply hasKey_In.
  rewrite mapSet_keyed.
  - apply map_ext. intros k. unfold keyed. f_equal.
    destruct (sameKey (keyOf row) k) eqn:E.
    + apply sameKey_true in E. subst k. symmetry.
      apply groupOf_snoc_known.
    + symmetry. apply groupOf_snoc_other.
      unfold sameKey in *. rewrite String.eqb_sym, E. apply andb_false_r.
  - apply NoDup_firstOccurrences.
  - now apply In_firstOccurrences.
Qed.

End KnownKey.

Section NewKey.

Hypothesis Hnew : ~ In (keyOf row) (map keyOf (filter accepted rows)).

Lemma groupOf_snoc_new :
  groupOf (keyOf row) (rows ++ [row])
  = pushOption (mkQuestionGroup (qText row) EmptyString []) (optionOf row).
Proof.
  unfold groupOf, stemOf, pushOption. cbn [gText gQuestion options].
  rewrite rowsOf_snoc, Hkept, sameKey_own.
  apply rowsOf_nil_iff in Hnew. rewrite Hnew. reflexivity.
Qed.

(** A new key gets a new entry, placed last. *)
Lemma groupedMap_snoc_new :
  groupedMap rows
    ++ [(keyOf row,
         pushOption (mkQuestionGroup (qText row) EmptyString [])
           (optionOf row))]
  = groupedMap (rows ++ [row]).
Proof.
  unfold groupedMap. rewrite keysOf_snoc_accepted.
  assert (hasKey (keyOf row) (map keyOf (filter accepted rows)) = false) as ->
    by now apply hasKey_not_In.
  rewrite map_app. cbn [map]. f_equal.
  - apply map_ext_in. intros k Hk. unfold keyed. f_equal.
    symmetry. apply groupOf_snoc_other.
    assert (sameKey k (keyOf row) = false) as ->; [|apply andb_false_r].
    apply sameKey_false. intros E. apply Hnew.
    rewrite E. now apply In_firstOccurrences.
  - unfold keyed. now rewrite groupOf_snoc_new.
Qed.

End NewKey.

End Kept.

End OneMoreRow.

(** *** The loop over the rows *)

Lemma mapHas_groupedMap (key : string) (rows : list SourceRow) :
  mapHas key (groupedMap rows)
  = hasKey key (map keyOf (filter accepted rows)).
Proof.
  unfold groupedMap, keysOf. rewrite mapHas_keyed.
  destruct (hasKey key (map keyOf (filter accepted rows))) eqn:E.
  - apply hasKey_In. apply In_firstOccurrences. now apply hasKey_In.
  - apply hasKey_not_In. rewrite In_firstOccurrences. now apply hasKey_not_In.
Qed.

(** The state of the first loop after any number of rows. *)
Lemma fold_groupRow (rows : list SourceRow) :
  fold_left groupRow rows (mkGroupState [] 0 [])
  = mkGroupState (map rowWarning (filter rejected rows))
      (List.length (filter rejected rows)) (groupedMap rows).
Proof.
  induction rows as [|row rows IH] using rev_ind; [reflexivity|].
  rewrite fold_left_app, IH. cbn [fold_left].
  unfold groupRow. cbn [stWarnings stSkipped groupMap].
  rewrite filter_app, map_app, length_app. cbn [filter].
  assert (Hrej : rejected row = negb (accepted row)) by reflexivity.
  rewrite Hrej. clear Hrej.
  destruct (accepted row) eqn:Ha; cbn [negb map List.length].
  - rewrite !app_nil_r, Nat.add_0_r.
    pose proof Ha as Ha'. unfold accepted in Ha'.
    apply andb_prop in Ha' as [Hn Ht]. apply negb_true_iff in Hn.
    rewrite Hn, Ht. cbn [negb].
    fold (keyOf row). fold (answerIsCorrect row). fold (optionOf row).
    rewrite mapHas_groupedMap.
    destruct (hasKey (keyOf row) (map keyOf (filter accepted rows))) eqn:Hk;
      cbn [negb].
    + apply hasKey_In in Hk.
      unfold groupedMap at 1. rewrite mapGet_keyed
        by now apply In_firstOccurrences.
      fold (groupedMap rows).
      now rewrite groupedMap_snoc_known.
    + assert (Hfresh : mapHas (keyOf row) (groupedMap rows) = false)
        by now rewrite mapHas_groupedMap.
      rewrite (mapSet_fresh _ _ _ Hfresh), (mapGet_last _ _ _ Hfresh),
        (mapSet_last _ _ _ _ Hfresh).
      apply hasKey_not_In in Hk. now rewrite groupedMap_snoc_new.
  - rewrite (groupedMap_snoc_rejected _ _ Ha).
    assert (Hw : rowWarning row
                 = if isEmpty (trim (qNumber row)) then noNumberWarning row
                   else notMCWarning row) by reflexivity.
    rewrite Hw. clear Hw. unfold accepted in Ha. rewrite Nat.add_1_r.
    destruct (isEmpty (trim (qNumber row))); cbn [negb andb] in Ha.
    + reflexivity.
    + now rewrite Ha.
Qed.

Lemma fold_groupWarning (gs : list QuestionGroup) :
  forall w,
    fold_left (fun w group => w ++ groupWarning group) gs w
    = w ++ flat_map groupWarning gs.
Proof.
  induction gs as [|g gs IH]; intros w; cbn [fold_left flat_map].
  - now rewrite app_nil_r.
  - now rewrite IH, app_assoc.
Qed.

Lemma groupQuestions_spec (rows : list SourceRow) :
  groupQuestions rows
  = mkGrouping (groupsOf rows)
      (map rowWarning (filter rejected rows)
         ++ flat_map groupWarning (groupsOf rows))
      (List.length (filter rejected rows)).
Proof.
  unfold groupQuestions. rewrite fold_groupRow.
  cbn [groupMap stWarnings stSkipped]. rewrite fold_groupWarning.
  assert (map snd (groupedMap rows) = groupsOf rows) as ->; [|reflexivity].
  unfold groupedMap, groupsOf. rewrite map_map. reflexivity.
Qed.


(** * The properties of the specification *)

(** [evaluated H t] adds the equation between [t] and its value. *)
Ltac evaluated H t :=
  let v := eval vm_compute in t in
  assert (H : t = v) by (vm_compute; reflexivity).

(** ** C10: the line parser always returns *)

(** C10.  [parseCSVLine] is a total function that returns at least one field
    for every line; and when the line stops inside a quoted section that was
    never closed (the loop has read [prefix] and is inside quotes, and no
    quote follows), the text accumulated up to the end of the line is the
    last field returned. *)
Theorem parseCSVLine_total_unterminated (line : string) :
  (exists fields last, parseCSVLine line = fields ++ [last])
  /\ (forall prefix body,
        line = (prefix ++ body)%string ->
        inQuotes (parseLoop prefix lineStart) = true ->
        includes QUOTE body = false ->
        parseCSVLine line
        = result (parseLoop prefix lineStart)
            ++ [(current (parseLoop prefix lineStart) ++ body)%string]).
Proof.
  split.
  - exists (result (parseLoop line lineStart)),
      (current (parseLoop line lineStart)). reflexivity.
  - intros prefix body -> Hopen Hbody. unfold parseCSVLine.
    rewrite parseLoop_app by now apply includes_startsWithQuote.
    destruct (parseLoop prefix lineStart) as [r c q].
    cbn [inQuotes] in Hopen. subst q.
    rewrite (parseLoop_unterminated body Hbody). reflexivity.
Qed.

Lemma parseCSVLine_total_unterminated_witness :
  inQuotes (parseLoop ("a," ++ str1 QUOTE ++ "b")%string lineStart) = true
  /\ includes QUOTE ", c" = false
  /\ parseCSVLine (("a," ++ str1 QUOTE ++ "b") ++ ", c")%string
     = ["a"; "b, c"].
Proof.
  split; [reflexivity|]. split; [reflexivity|].
  exact (proj2 (parseCSVLine_total_unterminated _)
           ("a," ++ str1 QUOTE ++ "b")%string ", c"
           eq_refl eq_refl eq_refl).
Defined.

(** ** C8: escaping of the written fields *)

Lemma parseCSVLine_groupLines (points : JSNumber) (group : QuestionGroup)
    (line : string) :
  In line (groupLines points group) -> List.length (parseCSVLine line) = 5.
Proof.
  unfold groupLines. cbn [app In]. rewrite in_app_iff, in_map_iff. cbn [In].
  intros [<-|[<-|[<-|[(o & <- & _)|[<-|[]]]]]].
  - reflexivity.
  - now rewrite parseCSVLine_questionTextLine.
  - now rewrite parseCSVLine_pointsLine.
  - now rewrite parseCSVLine_optionLine.
  - reflexivity.
Qed.

Lemma weight_text (option : QOption) :
  numberToString (weightOf option)
  = if isCorrect option then "100" else "0".
Proof. unfold weightOf. now destruct (isCorrect option). Qed.

(** What the points line holds for an integer, a fraction, a number written
    with an exponent, and the values that are no finite number. *)
Example pointsLine_examples :
  pointsLine (integer 1) = "Points,1,,,"
  /\ pointsLine (Finite false 15 1) = "Points,1.5,,,"
  /\ pointsLine (Finite false 1 22) = "Points,1e+21,,,"
  /\ pointsLine (Finite true 5 (-6)) = "Points,-5e-7,,,"
  /\ pointsLine NaN = "Points,NaN,,,"
  /\ pointsLine (Infinite false) = "Points,Infinity,,,".
Proof. repeat split; vm_compute; reflexivity. Qed.

(** C8.  A value that holds a comma, a quote or a line feed is written
    between quotes with each of its quotes doubled, any other value is
    written as it stands; the emitter applies this to the trimmed question
    text, the answer text and the feedback text; weight and points are
    written as bare numbers, and whatever number the points are (an integer,
    a fraction, a number written with an exponent, not-a-number or an
    infinity) its text holds no comma, quote or line feed; and every emitted
    field is well escaped, so that each emitted line reads back as exactly
    five fields. *)
Theorem escapeCSV_fields :
  (forall value,
      (includes COMMA value || includes QUOTE value || includes LF value
       = true ->
       escapeCSV value
       = (str1 QUOTE ++ doubleQuotes value ++ str1 QUOTE)%string)
      /\ (includes COMMA value || includes QUOTE value || includes LF value
          = false ->
          escapeCSV value = value)
      /\ wellEscaped (escapeCSV value) = true
      /\ parseCSVLine (escapeCSV value) = [value])
  /\ (forall groups points,
        fst (generateD2LCSV groups points)
        = join (str1 LF) (flat_map (groupLines points) groups))
  /\ (forall points group,
        groupLines points group
        = ["NewQuestion,MC,,,";
           ("QuestionText," ++ escapeCSV (trim (gText group)) ++ ",,,")%string;
           ("Points," ++ numberToString points ++ ",,,")%string]
          ++ map (fun o =>
                    ("Option," ++ numberToString (weightOf o) ++ ","
                       ++ escapeCSV (optAnswer o) ++ ",,"
                       ++ escapeCSV (feedback o))%string)
               (options group)
          ++ [",,,,"])
  /\ (forall points option,
        hasSpecial (numberToString points) = false
        /\ numberToString (weightOf option)
           = if isCorrect option then "100" else "0")
  /\ (forall points group line,
        In line (groupLines points group) ->
        List.length (parseCSVLine line) = 5).
Proof.
  split; [|split; [|split; [|split]]].
  - intros value. split; [apply escapeCSV_special|].
    split; [apply escapeCSV_verbatim|].
    split; [apply wellEscaped_escapeCSV | apply parseCSVLine_escapeCSV].
  - intros groups points. now rewrite generateD2LCSV_lines.
  - reflexivity.
  - intros points option. split;
      [apply hasSpecial_numberToString | apply weight_text].
  - apply parseCSVLine_groupLines.
Qed.

Lemma escapeCSV_fields_witness :
  includes QUOTE ("a," ++ str1 QUOTE ++ "b")%string = true
  /\ escapeCSV ("a," ++ str1 QUOTE ++ "b")%string
     = (str1 QUOTE ++ "a," ++ str1 QUOTE ++ str1 QUOTE ++ "b"
          ++ str1 QUOTE)%string
  /\ hasSpecial "plain text" = false
  /\ escapeCSV "plain text" = "plain text"
  /\ wellEscaped (escapeCSV ("x" ++ str1 LF ++ "y")%string) = true.
Proof.
  split; [reflexivity|]. split.
  - exact (proj1 (proj1 escapeCSV_fields ("a," ++ str1 QUOTE ++ "b")%string)
             eq_refl).
  - split; [reflexivity|]. split.
    + exact (proj1 (proj2 (proj1 escapeCSV_fields "plain text")) eq_refl).
    + exact (proj1 (proj2 (proj2 (proj1 escapeCSV_fields
                                    ("x" ++ str1 LF ++ "y")%string)))).
Defined.

(** ** C1: reading the emitted text back *)

(** C1, as stated, fails.  [parseCSV] files the fields of each line under the
    names found on the first line, here NewQuestion, MC and three empty
    names, so that the third field (the answer) is overwritten by the fifth:
    the answer of the first group below is not among the values [parseCSV]
    returns.  It also cuts the text at every line feed before it looks at
    quotes, and the stem is written trimmed: neither the feedback nor the
    stem of the second group below is among the values returned. *)
Lemma roundtrip_parseCSV_counterexample :
  (parsedValues
     (fst (generateD2LCSV
             [mkQuestionGroup "Q" EmptyString [mkQOption "a" true "f"]]
             (integer 1)))
   = ["QuestionText"; "Q"; EmptyString; "Points"; "1"; EmptyString;
      "Option"; "100"; "f"; EmptyString; EmptyString; EmptyString]
   /\ ~ In "a"
          (parsedValues
             (fst (generateD2LCSV
                     [mkQuestionGroup "Q" EmptyString
                        [mkQOption "a" true "f"]] (integer 1)))))
  /\ (parsedValues
        (fst (generateD2LCSV
                [mkQuestionGroup " Q" EmptyString
                   [mkQOption "a" true ("x" ++ str1 LF ++ "y")%string]]
                (integer 1)))
      = ["QuestionText"; "Q"; EmptyString; "Points"; "1"; EmptyString;
         "Option"; "100"; "x"; "y"; EmptyString; EmptyString;
         EmptyString; EmptyString; EmptyString]
      /\ ~ In ("x" ++ str1 LF ++ "y")%string
             (parsedValues
                (fst (generateD2LCSV
                        [mkQuestionGroup " Q" EmptyString
                           [mkQOption "a" true
                              ("x" ++ str1 LF ++ "y")%string]] (integer 1))))
      /\ ~ In " Q"
             (parsedValues
                (fst (generateD2LCSV
                        [mkQuestionGroup " Q" EmptyString
                           [mkQOption "a" true
                              ("x" ++ str1 LF ++ "y")%string]] (integer 1))))).
Proof.
  repeat split; try reflexivity;
    intros H; vm_compute in H; intuition discriminate.
Qed.

(** C1, amended.  The emitted text is the lines of the groups joined by line
    feeds, and the field parser [parseCSVLine], given any of these lines
    whole, returns the fields that were written: the trimmed stem for the
    question-text line, and the weight, the answer and the feedback for an
    option line, whatever commas, quotes and line feeds the values hold. *)
Theorem roundtrip_parseCSVLine (groups : list QuestionGroup)
    (points : JSNumber) :
  fst (generateD2LCSV groups points)
  = join (str1 LF) (flat_map (groupLines points) groups)
  /\ forall group, In group groups ->
       In (questionTextLine group) (groupLines points group)
       /\ parseCSVLine (questionTextLine group)
          = ["QuestionText"; trim (gText group); EmptyString; EmptyString;
             EmptyString]
       /\ forall option, In option (options group) ->
            In (optionLine option) (groupLines points group)
            /\ parseCSVLine (optionLine option)
               = ["Option"; numberToString (weightOf option);
                  optAnswer option; EmptyString; feedback option].
Proof.
  split; [now rewrite generateD2LCSV_lines|].
  intros group _. split; [right; now left|].
  split; [apply parseCSVLine_questionTextLine|].
  intros option Hin. split; [|apply parseCSVLine_optionLine].
  unfold groupLines. cbn [app In]. do 3 right.
  apply in_or_app. left. now apply in_map.
Qed.

Lemma roundtrip_parseCSVLine_witness :
  parseCSVLine
    (optionLine (mkQOption ("a," ++ str1 QUOTE ++ "b")%string true
                   ("x" ++ str1 LF ++ "y")%string))
  = ["Option"; "100"; ("a," ++ str1 QUOTE ++ "b")%string; EmptyString;
     ("x" ++ str1 LF ++ "y")%string].
Proof.
  exact (proj2
           (proj2 (proj2
              (proj2
                 (roundtrip_parseCSVLine
                    [mkQuestionGroup " Q, 1" EmptyString
                       [mkQOption ("a," ++ str1 QUOTE ++ "b")%string true
                          ("x" ++ str1 LF ++ "y")%string]] (integer 1))
                 _ (or_introl eq_refl)))
              _ (or_introl eq_refl))).
Defined.

(** ** C2: weights *)

Lemma flat_map_mapped {A B C : Type} (f : B -> list C) (g : A -> B)
    (l : list A) :
  flat_map f (map g l) = flat_map (fun x => f (g x)) l.
Proof.
  induction l as [|x l IH]; [reflexivity|]. cbn [map flat_map]. now rewrite IH.
Qed.

Lemma groups_groupQuestions (rows : list SourceRow) :
  groups (groupQuestions rows) = groupsOf rows.
Proof. now rewrite groupQuestions_spec. Qed.

Lemma weightField_optionOf (row : SourceRow) :
  nth 1 (parseCSVLine (optionLine (optionOf row))) EmptyString
  = if answerIsCorrect row then "100" else "0".
Proof.
  rewrite parseCSVLine_optionLine. cbn [nth]. now rewrite weight_text.
Qed.

(** C2.  The option lines written for a group are those of the kept rows that
    carry its key, one line per row, and the weight field of the line of a
    row reads 100 exactly when the answer-match field, trimmed and put in
    lower case, is the word correct; it reads 0 for every other value. *)
Theorem weight_iff_correct (rows : list SourceRow) (points : JSNumber) :
  fst (generateD2LCSV (groups (groupQuestions rows)) points)
  = join (str1 LF)
      (flat_map
         (fun key =>
            ["NewQuestion,MC,,,"; questionTextLine (groupOf key rows);
             pointsLine points]
              ++ map (fun row => optionLine (optionOf row)) (rowsOf key rows)
              ++ [",,,,"])
         (keysOf rows))
  /\ forall row,
       optionLine (optionOf row)
       = ("Option,"
            ++ (if String.eqb (toLowerCase (trim (answerMatch row))) "correct"
                then "100" else "0")
            ++ "," ++ escapeCSV (answer row) ++ ",,"
            ++ escapeCSV (notes row))%string
       /\ (nth 1 (parseCSVLine (optionLine (optionOf row))) EmptyString
           = "100"
           <-> toLowerCase (trim (answerMatch row)) = "correct")
       /\ (toLowerCase (trim (answerMatch row)) <> "correct" ->
           nth 1 (parseCSVLine (optionLine (optionOf row))) EmptyString = "0").
Proof.
  split.
  - rewrite generateD2LCSV_lines, groups_groupQuestions. cbn [fst].
    unfold groupsOf. rewrite flat_map_mapped. f_equal.
    apply flat_map_ext. intros key. unfold groupLines, groupOf at 2.
    cbn [options]. now rewrite map_map.
  - intros row. split.
    { unfold optionLine. rewrite weight_text. reflexivity. }
    rewrite weightField_optionOf. unfold answerIsCorrect.
    destruct (String.eqb_spec (toLowerCase (trim (answerMatch row))) "correct")
      as [E|E].
    + split; [tauto | contradiction].
    + split; [split; [discriminate | contradiction] | reflexivity].
Qed.

Lemma weight_iff_correct_witness :
  nth 1
    (parseCSVLine
       (optionLine
          (optionOf (mcRow "1" "Q" "A" "corect" "N"))))
    EmptyString = "0".
Proof.
  apply (proj2 (proj2 (proj2 (weight_iff_correct [] (integer 1))
                         (mcRow "1" "Q" "A" "corect" "N")))).
  discriminate.
Defined.

Example weight_examples :
  map (fun m =>
         nth 1
           (parseCSVLine
              (optionLine
                 (optionOf (mcRow "1" "Q" "A" m "N"))))
           EmptyString)
    [" Correct "; "CORRECT"; EmptyString; "incorrect"; "corect"; "correct!"]
  = ["100"; "100"; "0"; "0"; "0"; "0"].
Proof. reflexivity. Qed.

(** ** C3: one group per question number *)

Lemma groupMap_fold (rows : list SourceRow) :
  groupMap (fold_left groupRow rows (mkGroupState [] 0 [])) = groupedMap rows.
Proof. now rewrite fold_groupRow. Qed.

Lemma In_groupedMap (rows : list SourceRow) (key : string)
    (group : QuestionGroup) :
  In (key, group) (groupedMap rows)
  <-> In key (map keyOf (filter accepted rows)) /\ group = groupOf key rows.
Proof.
  unfold groupedMap, keysOf. rewrite in_map_iff. split.
  - intros (k & E & Hin). unfold keyed in E. inversion E; subst.
    split; [now apply In_firstOccurrences | reflexivity].
  - intros [Hin ->]. exists key. split; [reflexivity|].
    now apply In_firstOccurrences.
Qed.

Lemma keys_groupedMap (rows : list SourceRow) :
  map fst (groupedMap rows) = keysOf rows.
Proof.
  unfold groupedMap. rewrite map_map. unfold keyed. cbn [fst].
  apply map_id.
Qed.

Lemma rowsOf_first (rows : list SourceRow) (key : string) :
  In key (map keyOf (filter accepted rows)) ->
  exists first rest, rowsOf key rows = first :: rest.
Proof.
  intros Hin. destruct (rowsOf key rows) as [|first rest] eqn:E.
  - apply rowsOf_nil_iff in E. contradiction.
  - now exists first, rest.
Qed.

(** C3.  After the loop the map holds one entry per trimmed question number
    (its keys are pairwise distinct); a kept row is filed under its own
    trimmed number and under no other; the options of the entry of a key are
    those of all the kept rows with that key, whatever their stems, and of
    no row with another key; and the stem of the entry is the stem of the
    first of these rows. *)
Theorem one_group_per_number (rows : list SourceRow) :
  groups (groupQuestions rows)
  = map snd (groupMap (fold_left groupRow rows (mkGroupState [] 0 [])))
  /\ NoDup (map fst (groupMap (fold_left groupRow rows (mkGroupState [] 0 []))))
  /\ (forall row, In row rows -> accepted row = true ->
        In (keyOf row, groupOf (keyOf row) rows)
           (groupMap (fold_left groupRow rows (mkGroupState [] 0 [])))
        /\ In (optionOf row) (options (groupOf (keyOf row) rows)))
  /\ (forall key group,
        In (key, group)
           (groupMap (fold_left groupRow rows (mkGroupState [] 0 []))) ->
        options group
        = map optionOf
            (filter (fun r => String.eqb (keyOf r) key) (filter accepted rows))
        /\ exists first rest,
             filter (fun r => String.eqb (keyOf r) key) (filter accepted rows)
             = first :: rest
             /\ gText group = qText first).
Proof.
  rewrite groupMap_fold. split; [|split; [|split]].
  - rewrite groups_groupQuestions. unfold groupsOf, groupedMap.
    now rewrite map_map.
  - rewrite keys_groupedMap. apply NoDup_firstOccurrences.
  - intros row Hin Ha.
    assert (Hf : In row (filter accepted rows)) by now apply filter_In.
    split.
    + apply In_groupedMap. split; [now apply in_map | reflexivity].
    + unfold groupOf. cbn [options]. apply in_map. unfold rowsOf.
      apply filter_In. split; [exact Hf | now apply sameKey_true].
  - intros key group Hin. apply In_groupedMap in Hin as [Hk ->].
    split; [reflexivity|].
    destruct (rowsOf_first rows key Hk) as (first & rest & E).
    exists first, rest. split; [exact E|].
    unfold groupOf, stemOf. cbn [gText]. now rewrite E.
Qed.

Lemma one_group_per_number_witness :
  In ("7",
      mkQuestionGroup "stem A" EmptyString
        [mkQOption "x" true "n1"; mkQOption "y" false "n2"])
    (groupMap (fold_left groupRow sameStemRows (mkGroupState [] 0 []))).
Proof.
  exact (proj1
           (proj1 (proj2 (proj2 (one_group_per_number sameStemRows)))
              (mcRow " 7" "stem A" "x" "Correct" "n1")
              (or_introl eq_refl) eq_refl)).
Defined.

Example one_group_per_number_example :
  map (fun e => (fst e, gText (snd e), map optAnswer (options (snd e))))
    (groupMap (fold_left groupRow sameStemRows (mkGroupState [] 0 [])))
  = [("7", "stem A", ["x"; "y"]); ("8", "stem A", ["z"])].
Proof. reflexivity. Qed.

(** ** C4: order *)

(** C4.  The groups come in the order in which their trimmed question
    numbers first occur among the kept rows, the options of a group in the
    order of the rows that carry its key, and the emitter writes the groups,
    and inside each group the options, in that order. *)
Theorem order_preserved (rows : list SourceRow) (points : JSNumber) :
  groups (groupQuestions rows)
  = map (fun key => groupOf key rows)
      (firstOccurrences (map keyOf (filter accepted rows)))
  /\ (forall key,
        options (groupOf key rows)
        = map optionOf
            (filter (fun r => String.eqb (keyOf r) key)
               (filter accepted rows)))
  /\ fst (generateD2LCSV (groups (groupQuestions rows)) points)
     = join (str1 LF)
         (flat_map (groupLines points) (groups (groupQuestions rows)))
  /\ (forall group,
        groupLines points group
        = ["NewQuestion,MC,,,"; questionTextLine group; pointsLine points]
            ++ map optionLine (options group) ++ [",,,,"])
  /\ (forall keys,
        NoDup (firstOccurrences keys)
        /\ (forall k, In k (firstOccurrences keys) <-> In k keys)
        /\ (forall k,
              firstOccurrences (keys ++ [k])
              = if hasKey k keys then firstOccurrences keys
                else firstOccurrences keys ++ [k])).
Proof.
  split; [apply groups_groupQuestions|].
  split; [reflexivity|].
  split; [now rewrite generateD2LCSV_lines|].
  split; [reflexivity|].
  intros keys. split; [apply NoDup_firstOccurrences|].
  split; [intros k; apply In_firstOccurrences|].
  intros k. apply firstOccurrences_snoc.
Qed.

Lemma order_preserved_witness :
  groups (groupQuestions interleavedRows)
  = [mkQuestionGroup "second?" EmptyString
       [mkQOption "b1" false "n1"; mkQOption "b2" true "n3"];
     mkQuestionGroup "first?" EmptyString
       [mkQOption "a1" false "n2"; mkQOption "a2" true "n5"]].
Proof. exact (proj1 (order_preserved interleavedRows (integer 1))). Defined.

Example order_example :
  lines (fold_left (emitGroup (integer 1))
           (groups (groupQuestions interleavedRows))
           (mkEmitState [] 0))
  = ["NewQuestion,MC,,,"; "QuestionText,second?,,,"; "Points,1,,,";
     "Option,0,b1,,n1"; "Option,100,b2,,n3"; ",,,,";
     "NewQuestion,MC,,,"; "QuestionText,first?,,,"; "Points,1,,,";
     "Option,0,a1,,n2"; "Option,100,a2,,n5"; ",,,,"].
Proof. reflexivity. Qed.

(** ** The top-level conversion, case by case *)

Lemma convertToD2L_Returned (csvContent : string) (points : JSNumber)
    (res : ConversionResult) :
  convertToD2L csvContent points = Returned res ->
  exists headers rows,
    parseCSV csvContent = Returned (headers, rows)
    /\ valid (validateColumns headers) = true
    /\ groups (groupQuestions (loadSourceRows rows)) <> []
    /\ res
       = mkConversionResult
           (fst (generateD2LCSV
                   (groups (groupQuestions (loadSourceRows rows))) points))
           (List.length (groups (groupQuestions (loadSourceRows rows))))
           (snd (generateD2LCSV
                   (groups (groupQuestions (loadSourceRows rows))) points))
           (grWarnings (groupQuestions (loadSourceRows rows)))
           (skipped (groupQuestions (loadSourceRows rows))).
Proof.
  unfold convertToD2L.
  destruct (parseCSV csvContent) as [[headers rows]|message]; [|discriminate].
  destruct (valid (validateColumns headers)) eqn:Ev; cbn [negb];
    [|discriminate].
  set (G := groupQuestions (loadSourceRows rows)).
  destruct (Nat.eqb (List.length (groups G)) 0) eqn:El; [discriminate|].
  destruct (generateD2LCSV (groups G) points) as [csv n] eqn:Egen.
  intros H. exists headers, rows. subst G.
  split; [reflexivity|]. split; [exact Ev|]. split.
  - intros E. rewrite E in El. discriminate.
  - rewrite Egen. cbn [fst snd]. congruence.
Qed.

(** ** C5: the option count *)

Lemma filter_disjoint_length {A : Type} (p q : A -> bool) (l : list A) :
  (forall x, p x = true -> q x = false) ->
  List.length (filter p l) + List.length (filter q l)
  = List.length (filter (fun x => p x || q x) l).
Proof.
  intros Hpq. induction l as [|x l IH]; [reflexivity|].
  cbn [filter]. destruct (p x) eqn:Hp; cbn [orb].
  - rewrite (Hpq x Hp). cbn [List.length]. now rewrite <- IH.
  - destruct (q x); cbn [List.length]; rewrite <- IH; lia.
Qed.

Lemma filter_none {A : Type} (l : list A) : filter (fun _ => false) l = [].
Proof. induction l as [|x l IH]; [reflexivity | exact IH]. Qed.

Lemma rows_by_key_length (kept : list SourceRow) (keys : list string) :
  NoDup keys ->
  list_sum
    (map (fun k => List.length (filter (fun r => sameKey k (keyOf r)) kept))
       keys)
  = List.length (filter (fun r => hasKey (keyOf r) keys) kept).
Proof.
  induction keys as [|k keys IH]; intros Hnd.
  - cbn. now rewrite filter_none.
  - inversion Hnd as [|? ? Hk Hnd']; subst.
    cbn [map list_sum fold_right]. fold (list_sum
      (map (fun k0 => List.length (filter (fun r => sameKey k0 (keyOf r)) kept))
         keys)).
    rewrite (IH Hnd'). rewrite filter_disjoint_length.
    + f_equal. apply filter_ext. intros r. unfold hasKey. cbn [existsb].
      f_equal. unfold sameKey. apply String.eqb_sym.
    + intros r Hr. apply sameKey_true in Hr. rewrite Hr.
      now apply hasKey_not_In.
Qed.

Lemma totalOptions_groupsOf (rows : list SourceRow) :
  totalOptions (groupsOf rows) = List.length (filter accepted rows).
Proof.
  unfold totalOptions, groupsOf. rewrite map_map.
  unfold groupOf, rowsOf. cbn [options].
  erewrite map_ext; [|intros k; apply length_map].
  unfold keysOf. rewrite rows_by_key_length by apply NoDup_firstOccurrences.
  f_equal. apply forallb_filter_id. apply forallb_forall. intros r Hr.
  apply hasKey_In. apply In_firstOccurrences. now apply in_map.
Qed.

Lemma accepted_rejected_length (rows : list SourceRow) :
  List.length (filter accepted rows) + List.length (filter rejected rows)
  = List.length rows.
Proof.
  induction rows as [|r rows IH]; [reflexivity|].
  cbn [filter]. unfold rejected at 1.
  destruct (accepted r); cbn [negb List.length]; lia.
Qed.

(** C5, as stated, fails: with one multiple-choice row and one short-answer
    row there is one valid row (N = 1) and one skipped row, and the option
    count is 1, not N minus the skipped count. *)
Lemma optionsCount_counterexample :
  exists res,
    convertToD2L mixedInput (integer 1) = Returned res
    /\ List.length (filter accepted (sourceRowsOf mixedInput)) = 1
    /\ skippedRows res = 1
    /\ optionsCount res = 1
    /\ optionsCount res
       <> List.length (filter accepted (sourceRowsOf mixedInput))
          - skippedRows res.
Proof.
  eexists. split; [vm_compute; reflexivity|].
  split; [vm_compute; reflexivity|].
  split; [reflexivity|]. split; [reflexivity|].
  intros H. vm_compute in H. discriminate H.
Qed.

(** C5, amended.  When the conversion returns, the option count equals the
    number N of rows that are multiple-choice with a non-empty trimmed
    question number; the skipped count is the number of the other rows; so
    the option count is the number of all data rows minus the skipped count;
    and it is the sum of the lengths of the option sequences of the
    groups. *)
Theorem optionsCount_kept_rows (csvContent : string) (points : JSNumber)
    (res : ConversionResult) :
  convertToD2L csvContent points = Returned res ->
  optionsCount res = List.length (filter accepted (sourceRowsOf csvContent))
  /\ skippedRows res
     = List.length (filter rejected (sourceRowsOf csvContent))
  /\ optionsCount res + skippedRows res
     = List.length (sourceRowsOf csvContent)
  /\ optionsCount res
     = List.length (sourceRowsOf csvContent) - skippedRows res
  /\ optionsCount res
     = list_sum
         (map (fun g => List.length (options g))
            (groups (groupQuestions (sourceRowsOf csvContent)))).
Proof.
  intros H. apply convertToD2L_Returned in H
    as (headers & rows & Hparse & _ & _ & ->).
  unfold sourceRowsOf. rewrite Hparse.
  cbn [optionsCount skippedRows]. rewrite generateD2LCSV_lines.
  rewrite groupQuestions_spec. cbn [snd groups skipped].
  rewrite totalOptions_groupsOf.
  pose proof (accepted_rejected_length (loadSourceRows rows)) as Hlen.
  split; [reflexivity|]. split; [reflexivity|]. split; [exact Hlen|].
  split; [lia|]. symmetry. apply totalOptions_groupsOf.
Qed.

Lemma optionsCount_kept_rows_witness :
  exists res,
    convertToD2L mixedInput (integer 1) = Returned res
    /\ optionsCount res = 1
    /\ skippedRows res = 1
    /\ List.length (sourceRowsOf mixedInput) = 2
    /\ optionsCount res
       = List.length (sourceRowsOf mixedInput) - skippedRows res.
Proof.
  eexists. split; [vm_compute; reflexivity|].
  split; [reflexivity|]. split; [reflexivity|].
  split; [vm_compute; reflexivity|].
  refine (proj1 (proj2 (proj2 (proj2
            (optionsCount_kept_rows mixedInput (integer 1) _ _))))).
  vm_compute. reflexivity.
Defined.

(** ** C6: missing columns *)

Lemma columnPresent_iff (headers : list string) (required : string) :
  columnPresent (normalized headers) required = true
  <-> exists h, In h headers /\ toLowerCase (trim h) = toLowerCase required.
Proof.
  unfold columnPresent, arrayIncludes, normalized.
  rewrite existsb_exists. split.
  - intros (n & Hin & E). apply in_map_iff in Hin as (h & <- & Hh).
    apply String.eqb_eq in E. now exists h.
  - intros (h & Hh & E). exists (toLowerCase (trim h)). split.
    + apply in_map_iff. now exists h.
    + apply String.eqb_eq. now symmetry.
Qed.

Lemma In_missingColumns (headers : list string) (c : string) :
  In c (missingColumns headers)
  <-> In c REQUIRED_COLUMNS
      /\ ~ exists h, In h headers /\ toLowerCase (trim h) = toLowerCase c.
Proof.
  unfold missingColumns. rewrite filter_In, <- columnPresent_iff.
  destruct (columnPresent (normalized headers) c); cbn [negb];
    split; intros [H1 H2]; split; auto; congruence.
Qed.

Lemma validateColumns_spec (headers : list string) :
  validateColumns headers
  = mkValidation (Nat.eqb (List.length (missingColumns headers)) 0)
      (missingColumns headers).
Proof. reflexivity. Qed.

(** C6.  When the text has a header row and at least one of the five
    required columns matches no header (headers trimmed, case ignored), the
    conversion throws the missing-columns error: its message lists, in the
    order of the required columns and under their canonical names, exactly
    the required columns that match no header; nothing is returned. *)
Theorem missing_columns_error (csvContent : string) (points : JSNumber)
    (headers : list string) (rows : list RawRow) :
  parseCSV csvContent = Returned (headers, rows) ->
  (exists c, In c REQUIRED_COLUMNS
             /\ ~ exists h, In h headers
                            /\ toLowerCase (trim h) = toLowerCase c) ->
  convertToD2L csvContent points
  = Threw ("Missing required columns: "
             ++ join ", " (missingColumns headers))%string
  /\ (forall c,
        In c (missingColumns headers)
        <-> In c REQUIRED_COLUMNS
            /\ ~ exists h, In h headers
                           /\ toLowerCase (trim h) = toLowerCase c)
  /\ missingColumns headers
     = filter
         (fun c =>
            negb (existsb (String.eqb (toLowerCase c))
                    (map (fun h => toLowerCase (trim h)) headers)))
         ["Q Type"; "Q Text"; "Answer"; "Answer Match"; "Notes"]
  /\ forall res, convertToD2L csvContent points <> Returned res.
Proof.
  intros Hparse (c & Hc & Habs).
  assert (Hin : In c (missingColumns headers)) by now apply In_missingColumns.
  assert (Hconv : convertToD2L csvContent points
                  = Threw (missingColumnsMessage (missingColumns headers))).
  { unfold convertToD2L. rewrite Hparse, validateColumns_spec.
    cbn [valid missing].
    destruct (missingColumns headers); [contradiction | reflexivity]. }
  split; [exact Hconv|]. split; [apply In_missingColumns|].
  split.
  - reflexivity.
  - intros res. rewrite Hconv. discriminate.
Qed.

Lemma missing_columns_error_witness :
  parseCSV noNotesInput
  = Returned
      (["Q #"; "Q Type"; "Q Text"; "Answer"; "Answer Match"],
       [[("Q #", "1"); ("Q Type", "MC"); ("Q Text", "What?");
         ("Answer", "Yes"); ("Answer Match", "Correct")]])
  /\ missingColumns ["Q #"; "Q Type"; "Q Text"; "Answer"; "Answer Match"]
     = ["Notes"]
  /\ convertToD2L noNotesInput (integer 1)
     = Threw "Missing required columns: Notes".
Proof.
  assert (Hparse :
            parseCSV noNotesInput
            = Returned
                (["Q #"; "Q Type"; "Q Text"; "Answer"; "Answer Match"],
                 [[("Q #", "1"); ("Q Type", "MC"); ("Q Text", "What?");
                   ("Answer", "Yes"); ("Answer Match", "Correct")]]))
    by (vm_compute; reflexivity).
  assert (Hmissing :
            missingColumns ["Q #"; "Q Type"; "Q Text"; "Answer"; "Answer Match"]
            = ["Notes"])
    by (vm_compute; reflexivity).
  split; [exact Hparse|]. split; [exact Hmissing|].
  pose proof (missing_columns_error noNotesInput (integer 1) _ _ Hparse) as T.
  rewrite Hmissing in T. apply T.
  exists "Notes". split; [do 4 right; now left|].
  intros (h & Hh & E).
  repeat (destruct Hh as [<-|Hh]; [vm_compute in E; discriminate E|]).
  exact Hh.
Defined.

(** ** C7: no question *)

Lemma groupsOf_nil_iff (rows : list SourceRow) :
  groupsOf rows = [] <-> forall row, In row rows -> accepted row = false.
Proof.
  unfold groupsOf, keysOf. split.
  - intros H row Hin. destruct (accepted row) eqn:Ha; [|reflexivity].
    exfalso.
    assert (Hk : In (keyOf row)
                   (firstOccurrences (map keyOf (filter accepted rows)))).
    { apply In_firstOccurrences. apply in_map. now apply filter_In. }
    destruct (firstOccurrences (map keyOf (filter accepted rows)));
      [contradiction | discriminate H].
  - intros H.
    assert (filter accepted rows = []) as ->; [|reflexivity].
    induction rows as [|r rows IH]; [reflexivity|].
    cbn [filter]. rewrite (H r (or_introl eq_refl)).
    apply IH. intros row Hin. apply H. now right.
Qed.

(** C7.  When the text parses, the header row has every required column, and
    the grouper yields no group -- which is the case exactly when every data
    row is skipped -- the conversion throws the no-questions error; it
    returns no result, hence no output text. *)
Theorem no_questions_error (csvContent : string) (points : JSNumber)
    (headers : list string) (rows : list RawRow) :
  parseCSV csvContent = Returned (headers, rows) ->
  valid (validateColumns headers) = true ->
  groups (groupQuestions (loadSourceRows rows)) = [] ->
  convertToD2L csvContent points
  = Threw "No valid MC questions found in the input file"
  /\ (forall row, In row (loadSourceRows rows) -> accepted row = false)
  /\ forall res, convertToD2L csvContent points <> Returned res.
Proof.
  intros Hparse Hvalid Hgroups.
  assert (Hconv : convertToD2L csvContent points = Threw noQuestionsMessage).
  { unfold convertToD2L. now rewrite Hparse, Hvalid, Hgroups. }
  split; [exact Hconv|]. split.
  - apply groupsOf_nil_iff. now rewrite <- groups_groupQuestions.
  - intros res. rewrite Hconv. discriminate.
Qed.

Lemma no_questions_error_witness :
  exists headers rows,
    parseCSV allSkippedInput = Returned (headers, rows)
    /\ valid (validateColumns headers) = true
    /\ groups (groupQuestions (loadSourceRows rows)) = []
    /\ convertToD2L allSkippedInput (integer 1)
       = Threw "No valid MC questions found in the input file".
Proof.
  evaluated Hparse (parseCSV allSkippedInput).
  match type of Hparse with
  | _ = Returned (?h, ?r) =>
      assert (Hvalid : valid (validateColumns h) = true)
        by (vm_compute; reflexivity);
      assert (Hnone : groups (groupQuestions (loadSourceRows r)) = [])
        by (vm_compute; reflexivity);
      exists h, r
  end.
  split; [exact Hparse|]. split; [exact Hvalid|]. split; [exact Hnone|].
  exact (proj1 (no_questions_error allSkippedInput (integer 1) _ _
                  Hparse Hvalid Hnone)).
Defined.

(** Every data row skipped is one way to reach that error. *)
Lemma all_skipped_no_groups (rows : list SourceRow) :
  (forall row, In row rows -> accepted row = false) ->
  groups (groupQuestions rows) = [].
Proof.
  intros H. rewrite groups_groupQuestions. now apply groupsOf_nil_iff.
Qed.

(** ** C9: the prompt column *)











Example prompt_result :
  exists res,
    convertToD2L promptInputA (integer 1) = Returned res
    /\ questionsCount res = 1 /\ optionsCount res = 2.
Proof. eexists. split; [vm_compute; reflexivity|]. now split. Qed.

(** * Further properties of the code *)

(** ** splitLines: line ends *)

(** A character that is no line feed, and no carriage return before a line
    feed, joins the piece being read. *)
Lemma splitLines_char (c : ascii) (rest cur : string) :
  Ascii.eqb c LF = false ->
  Ascii.eqb c CR && startsWithLF rest = false ->
  splitLines (String c rest) cur = splitLines rest (cur ++ str1 c)%string.
Proof.
  intros Hlf Hcr. cbn [splitLines]. rewrite Hlf.
  destruct (Ascii.eqb c CR); [|reflexivity].
  destruct rest as [|d rest']; [reflexivity|].
  cbn [andb startsWithLF] in Hcr. now rewrite Hcr.
Qed.

Lemma startsWithLF_includes (s t : string) :
  includes LF s = false -> startsWithLF t = false ->
  startsWithLF (s ++ t) = false.
Proof.
  destruct s as [|c s]; intros Hs Ht; [exact Ht|].
  cbn [includes] in Hs. now apply orb_false_elim in Hs as [Hc _].
Qed.

(** A line without line feed, followed by a line feed, is cut off whole,
    provided no carriage return ends it. *)
Lemma splitLines_LF (line rest : string) :
  includes LF line = false -> endsWithCR line = false ->
  forall cur,
    splitLines (line ++ String LF rest) cur
    = (cur ++ line)%string :: splitLines rest EmptyString.
Proof.
  induction line as [|c line IH]; intros Hlf Hcr cur.
  - cbn [append splitLines]. rewrite Ascii.eqb_refl.
    now rewrite append_empty_r.
  - cbn [includes] in Hlf. apply orb_false_elim in Hlf as [Hc Hlf].
    cbn [append]. rewrite splitLines_char; [|exact Hc|].
    + destruct line as [|d line'].
      * cbn [append splitLines]. now rewrite Ascii.eqb_refl.
      * rewrite (IH Hlf Hcr). now rewrite append_assoc.
    + destruct line as [|d line'].
      * cbn [endsWithCR] in Hcr. now rewrite Hcr.
      * cbn [append startsWithLF]. cbn [includes] in Hlf.
        apply orb_false_elim in Hlf as [Hd _]. rewrite Hd.
        apply andb_false_r.
Qed.

(** Before a carriage return and a line feed, any line without line feed is
    cut off whole. *)
Lemma splitLines_CRLF (line rest : string) :
  includes LF line = false ->
  forall cur,
    splitLines (line ++ String CR (String LF rest)) cur
    = (cur ++ line)%string :: splitLines rest EmptyString.
Proof.
  induction line as [|c line IH]; intros Hlf cur.
  - cbn [append splitLines]. rewrite Ascii.eqb_refl.
    assert (Ascii.eqb CR LF = false) as -> by reflexivity.
    now rewrite append_empty_r.
  - cbn [includes] in Hlf. apply orb_false_elim in Hlf as [Hc Hlf].
    cbn [append]. rewrite splitLines_char; [|exact Hc|].
    + rewrite (IH Hlf). now rewrite append_assoc.
    + rewrite startsWithLF_includes; [apply andb_false_r | exact Hlf|].
      reflexivity.
Qed.

(** The last line: without line feed, it is the one piece that remains. *)
Lemma splitLines_last (line : string) :
  includes LF line = false ->
  forall cur, splitLines line cur = [(cur ++ line)%string].
Proof.
  induction line as [|c line IH]; intros Hlf cur.
  - cbn. now rewrite append_empty_r.
  - cbn [includes] in Hlf. apply orb_false_elim in Hlf as [Hc Hlf].
    rewrite splitLines_char; [|exact Hc|].
    + rewrite (IH Hlf). now rewrite append_assoc.
    + rewrite <- (append_empty_r line).
      rewrite startsWithLF_includes; [apply andb_false_r | exact Hlf|].
      reflexivity.
Qed.

Lemma join_cons (sep x y : string) (rest : list string) :
  join sep (x :: y :: rest) = (x ++ sep ++ join sep (y :: rest))%string.
Proof. reflexivity. Qed.

Lemma wholeLine_parts (line : string) :
  wholeLine line = true ->
  includes LF line = false /\ endsWithCR line = false.
Proof.
  unfold wholeLine. intros H. apply andb_prop in H as [H1 H2].
  now rewrite negb_true_iff in H1, H2.
Qed.

(** Cutting the lines joined by line feeds gives the lines back. *)
Lemma splitLines_lines_LF (first : string) (others : list string) :
  forallb wholeLine (first :: others) = true ->
  splitLines (join (str1 LF) (first :: others)) EmptyString
  = first :: others.
Proof.
  revert first. induction others as [|second others IH]; intros first Hall.
  - cbn [forallb] in Hall. apply andb_prop in Hall as [Hl _].
    apply wholeLine_parts in Hl as [Hlf _]. cbn [join String.concat].
    now rewrite (splitLines_last first Hlf).
  - cbn [forallb] in Hall. apply andb_prop in Hall as [Hl Hall].
    apply wholeLine_parts in Hl as [Hlf Hcr].
    rewrite join_cons. cbn [str1 append].
    rewrite (splitLines_LF first _ Hlf Hcr). cbn [append].
    f_equal. now apply IH.
Qed.

(** So does cutting the lines joined by carriage return and line feed. *)
Lemma splitLines_lines_CRLF (first : string) (others : list string) :
  forallb (fun line => negb (includes LF line)) (first :: others) = true ->
  splitLines (join CRLF (first :: others)) EmptyString = first :: others.
Proof.
  revert first. induction others as [|second others IH]; intros first Hall.
  - cbn [forallb] in Hall. apply andb_prop in Hall as [Hl _].
    apply negb_true_iff in Hl. cbn [join String.concat].
    now rewrite (splitLines_last first Hl).
  - cbn [forallb] in Hall. apply andb_prop in Hall as [Hl Hall].
    apply negb_true_iff in Hl.
    rewrite join_cons. unfold CRLF at 1. cbn [append].
    rewrite (splitLines_CRLF first _ Hl). cbn [append].
    f_equal. now apply IH.
Qed.

(** X1.  Cutting a text into lines undoes the joining of lines: lines
    without line feed, joined by carriage return and line feed, come back
    as they were; joined by line feeds alone they come back as they were
    when, moreover, none ends with a carriage return. *)
Theorem splitLines_join (first : string) (others : list string) :
  forallb (fun line => negb (includes LF line)) (first :: others) = true ->
  splitLines (join CRLF (first :: others)) EmptyString = first :: others
  /\ (forallb (fun line => negb (endsWithCR line)) (first :: others) = true ->
      splitLines (join (str1 LF) (first :: others)) EmptyString
      = first :: others).
Proof.
  intros Hlf. split; [now apply splitLines_lines_CRLF|].
  intros Hcr. apply splitLines_lines_LF.
  rewrite forallb_forall in Hlf, Hcr. apply forallb_forall.
  intros line Hin. unfold wholeLine.
  now rewrite (Hlf line Hin), (Hcr line Hin).
Qed.

Lemma splitLines_join_witness :
  splitLines (join CRLF ["a,b"; str1 CR; "c d"]) EmptyString
  = ["a,b"; str1 CR; "c d"]
  /\ splitLines (join (str1 LF) ["a,b"; EmptyString; "c d"]) EmptyString
     = ["a,b"; EmptyString; "c d"].
Proof.
  split.
  - exact (proj1 (splitLines_join "a,b" [str1 CR; "c d"] eq_refl)).
  - exact (proj2 (splitLines_join "a,b" [EmptyString; "c d"] eq_refl)
             eq_refl).
Defined.

(** ** parseCSV: what the lines decide *)

Lemma nonBlank_empty : nonBlank EmptyString = false.
Proof. reflexivity. Qed.

Lemma wholeLine_noLF (ls : list string) :
  forallb wholeLine ls = true ->
  forallb (fun line => negb (includes LF line)) ls = true.
Proof.
  induction ls as [|l ls IH]; [reflexivity|]. cbn [forallb]. intros H.
  apply andb_prop in H as [Hl H]. rewrite (IH H), andb_true_r.
  apply wholeLine_parts in Hl as [Hlf _]. now rewrite Hlf.
Qed.

Lemma nonBlank_lines_LF (ls : list string) :
  forallb wholeLine ls = true ->
  filter nonBlank (splitLines (join (str1 LF) ls) EmptyString)
  = filter nonBlank ls.
Proof.
  destruct ls as [|first others]; [reflexivity|].
  intros H. now rewrite splitLines_lines_LF.
Qed.

Lemma nonBlank_lines_CRLF (ls : list string) :
  forallb (fun line => negb (includes LF line)) ls = true ->
  filter nonBlank (splitLines (join CRLF ls) EmptyString)
  = filter nonBlank ls.
Proof.
  destruct ls as [|first others]; [reflexivity|].
  intros H. now rewrite splitLines_lines_CRLF.
Qed.

Lemma forallb_filter_sub {A : Type} (p q : A -> bool) (l : list A) :
  forallb p l = true -> forallb p (filter q l) = true.
Proof.
  induction l as [|x l IH]; [reflexivity|]. cbn [forallb filter].
  intros H. apply andb_prop in H as [Hx H].
  destruct (q x); cbn [forallb]; [rewrite Hx|]; now apply IH.
Qed.

Lemma filter_idem {A : Type} (q : A -> bool) (l : list A) :
  filter q (filter q l) = filter q l.
Proof.
  induction l as [|x l IH]; [reflexivity|]. cbn [filter].
  destruct (q x) eqn:E; [cbn [filter]; rewrite E; now f_equal | exact IH].
Qed.

(** X2.  The style of the line ends and the blank lines do not matter to
    [parseCSV]: lines joined by carriage return and line feed parse like the
    same lines joined by line feeds, and like the lines that are not blank
    alone. *)
Theorem parseCSV_line_ends (ls : list string) :
  forallb wholeLine ls = true ->
  parseCSV (join CRLF ls) = parseCSV (join (str1 LF) ls)
  /\ parseCSV (join (str1 LF) ls)
     = parseCSV (join (str1 LF) (filter nonBlank ls))
  /\ parseCSV (join (str1 LF) (ls ++ [EmptyString]))
     = parseCSV (join (str1 LF) ls).
Proof.
  intros H.
  assert (Hdrop : forall l, forallb wholeLine l = true ->
            parseCSV (join (str1 LF) l)
            = parseCSV (join (str1 LF) (filter nonBlank l))).
  { intros l Hl. unfold parseCSV.
    rewrite (nonBlank_lines_LF l Hl).
    rewrite (nonBlank_lines_LF (filter nonBlank l))
      by now apply forallb_filter_sub.
    now rewrite filter_idem. }
  split; [|split].
  - unfold parseCSV. rewrite (nonBlank_lines_LF ls H).
    now rewrite (nonBlank_lines_CRLF ls (wholeLine_noLF ls H)).
  - now apply Hdrop.
  - rewrite Hdrop.
    + rewrite (Hdrop ls H). rewrite filter_app. cbn [filter].
      rewrite nonBlank_empty. now rewrite app_nil_r.
    + rewrite forallb_app, H. reflexivity.
Qed.

Lemma parseCSV_line_ends_witness :
  parseCSV (join CRLF ["Q #,Answer"; EmptyString; "1,yes"; "  "])
  = parseCSV (join (str1 LF) ["Q #,Answer"; "1,yes"]).
Proof.
  pose proof (parseCSV_line_ends
                ["Q #,Answer"; EmptyString; "1,yes"; "  "] eq_refl)
    as (H1 & H2 & _).
  rewrite H1, H2. reflexivity.
Defined.

(** ** parseCSV: the empty text *)

Lemma trimStart_white (s : string) :
  allChars isWhiteSpace s = true -> trimStart s = EmptyString.
Proof.
  induction s as [|c s IH]; [reflexivity|]. cbn [allChars trimStart].
  intros H. apply andb_prop in H as [Hc H]. rewrite Hc. now apply IH.
Qed.

Lemma trim_white (s : string) :
  allChars isWhiteSpace s = true -> trim s = EmptyString.
Proof. intros H. unfold trim. now rewrite trimStart_white. Qed.

Lemma splitLines_white (s : string) :
  allChars isWhiteSpace s = true ->
  forall cur, allChars isWhiteSpace cur = true ->
    forallb (allChars isWhiteSpace) (splitLines s cur) = true.
Proof.
  assert (Hlen : forall n s, String.length s <= n ->
            allChars isWhiteSpace s = true ->
            forall cur, allChars isWhiteSpace cur = true ->
              forallb (allChars isWhiteSpace) (splitLines s cur) = true).
  { induction n as [|n IH]; intros t Hn Ht cur Hcur.
    - destruct t; [|cbn in Hn; lia]. cbn. now rewrite Hcur.
    - destruct t as [|c t]; [cbn; now rewrite Hcur|].
      cbn [String.length] in Hn. cbn [allChars] in Ht.
      apply andb_prop in Ht as [Hc Ht].
      assert (Hnext : allChars isWhiteSpace (cur ++ str1 c) = true).
      { rewrite allChars_append, Hcur. cbn. now rewrite Hc. }
      cbn [splitLines]. destruct (Ascii.eqb c LF).
      + cbn [forallb]. rewrite Hcur. apply IH; [lia | exact Ht | reflexivity].
      + destruct (Ascii.eqb c CR); [|apply IH; [lia | exact Ht | exact Hnext]].
        destruct t as [|d t']; [apply IH; [lia | exact Ht | exact Hnext]|].
        destruct (Ascii.eqb d LF);
          [|apply IH; [lia | exact Ht | exact Hnext]].
        cbn [forallb]. rewrite Hcur. cbn [allChars] in Ht.
        apply andb_prop in Ht as [_ Ht].
        apply IH; [cbn [String.length] in Hn; lia | exact Ht | reflexivity]. }
  intros H. now apply (Hlen (String.length s)).
Qed.

Lemma filter_nil_iff {A : Type} (p : A -> bool) (l : list A) :
  filter p l = [] <-> forall x, In x l -> p x = false.
Proof.
  induction l as [|x l IH]; cbn [filter In]; [tauto|].
  destruct (p x) eqn:E.
  - split; [discriminate|]. intros H. specialize (H x (or_introl eq_refl)).
    congruence.
  - rewrite IH. split; [intros H y [<-|Hy]; auto | intros H y Hy; auto].
Qed.

(** X3.  [parseCSV] throws exactly when no line of the text is left after
    the blank ones are dropped, and then with the message CSV file is empty;
    a text of white space only is such a text; [convertToD2L] passes the
    error on, whatever the points. *)
Theorem parseCSV_empty (csvContent : string) :
  (parseCSV csvContent = Threw "CSV file is empty"
   <-> forall line,
         In line (splitLines csvContent EmptyString) ->
         trim line = EmptyString)
  /\ (forall message,
        parseCSV csvContent = Threw message ->
        message = "CSV file is empty"
        /\ forall points, convertToD2L csvContent points = Threw message)
  /\ (allChars isWhiteSpace csvContent = true ->
      parseCSV csvContent = Threw "CSV file is empty").
Proof.
  assert (Hiff : parseCSV csvContent = Threw "CSV file is empty"
                 <-> forall line,
                       In line (splitLines csvContent EmptyString) ->
                       trim line = EmptyString).
  { unfold parseCSV.
    destruct (filter nonBlank (splitLines csvContent EmptyString))
      as [|h d] eqn:E.
    - split; [intros _|reflexivity]. intros line Hin.
      pose proof (proj1 (filter_nil_iff _ _) E line Hin) as Hb.
      unfold nonBlank in Hb. apply negb_false_iff in Hb.
      now destruct (trim line).
    - split; [discriminate|]. intros H. exfalso.
      assert (Hh : In h (filter nonBlank (splitLines csvContent EmptyString)))
        by (rewrite E; now left).
      apply filter_In in Hh as [Hin Hnb]. unfold nonBlank in Hnb.
      now rewrite (H h Hin) in Hnb. }
  split; [exact Hiff|]. split.
  - intros message H.
    assert (message = "CSV file is empty") as ->.
    { unfold parseCSV in H.
      destruct (filter nonBlank (splitLines csvContent EmptyString));
        [congruence | discriminate]. }
    split; [reflexivity|]. intros points. unfold convertToD2L. now rewrite H.
  - intros Hw. apply Hiff. intros line Hin. apply trim_white.
    pose proof (splitLines_white csvContent Hw EmptyString eq_refl) as Hall.
    rewrite forallb_forall in Hall. now apply Hall.
Qed.

Lemma parseCSV_empty_witness :
  convertToD2L ("  " ++ str1 CR ++ str1 LF ++ str1 LF ++ " ")%string
    (integer 5)
  = Threw "CSV file is empty".
Proof.
  pose proof (parseCSV_empty
                ("  " ++ str1 CR ++ str1 LF ++ str1 LF ++ " ")%string)
    as (_ & Hpass & Hwhite).
  exact (proj2 (Hpass _ (Hwhite eq_refl)) (integer 5)).
Defined.

(** ** parseCSV: rows *)

Lemma hasOwn_hasKey (key : string) (row : RawRow) :
  hasOwn key row = hasKey key (map fst row).
Proof.
  induction row as [|[k v] row IH]; [reflexivity|].
  cbn [hasOwn existsb map fst hasKey]. unfold sameKey at 1. f_equal. exact IH.
Qed.

Lemma hasOwn_In (key : string) (row : RawRow) :
  hasOwn key row = true <-> In key (map fst row).
Proof. rewrite hasOwn_hasKey. apply hasKey_In. Qed.

Lemma hasOwn_not_In (key : string) (row : RawRow) :
  hasOwn key row = false <-> ~ In key (map fst row).
Proof. rewrite hasOwn_hasKey. apply hasKey_not_In. Qed.

(** *** A value replaced *)

Lemma keys_replaceProp (key value : string) (row : RawRow) :
  map fst (replaceProp key value row) = map fst row.
Proof.
  induction row as [|[k v] row IH]; [reflexivity|]. cbn [replaceProp].
  destruct (String.eqb k key); cbn [map fst]; [reflexivity | now rewrite IH].
Qed.

Lemma getProp_replaceProp (key value : string) (row : RawRow) (k : string) :
  hasOwn key row = true ->
  getProp k (replaceProp key value row)
  = if String.eqb key k then Some value else getProp k row.
Proof.
  induction row as [|[k0 v0] row IH]; intros Hown; [discriminate|].
  cbn [hasOwn existsb fst] in Hown. cbn [replaceProp].
  destruct (String.eqb_spec k0 key) as [->|Hne]; cbn [getProp].
  - now destruct (String.eqb key k).
  - cbn [orb] in Hown. rewrite (IH Hown).
    destruct (String.eqb_spec k0 k) as [->|Hk]; [|reflexivity].
    destruct (String.eqb_spec key k) as [->|Hk']; [contradiction|].
    reflexivity.
Qed.

(** *** A new array index *)

Lemma Add_insertIndex (n : N) (key value : string) (row : RawRow) :
  Add key (map fst row) (map fst (insertIndex n key value row)).
Proof.
  induction row as [|[k v] row IH]; cbn [insertIndex map fst].
  - constructor.
  - destruct (arrayIndex k) as [m|]; [|constructor].
    destruct (m <? n)%N; cbn [map fst]; now constructor.
Qed.

Lemma getProp_insertIndex (n : N) (key value : string) (row : RawRow)
    (k : string) :
  hasOwn key row = false ->
  getProp k (insertIndex n key value row)
  = if String.eqb key k then Some value else getProp k row.
Proof.
  induction row as [|[k0 v0] row IH]; intros Hown; [reflexivity|].
  cbn [hasOwn existsb fst] in Hown. apply orb_false_elim in Hown as [H0 Hown].
  cbn [insertIndex].
  destruct (arrayIndex k0) as [m|]; [|reflexivity].
  destruct (m <? n)%N; [|reflexivity].
  cbn [getProp]. rewrite (IH Hown).
  destruct (String.eqb_spec k0 k) as [->|Hk]; [|reflexivity].
  destruct (String.eqb_spec key k) as [->|_]; [|reflexivity].
  rewrite String.eqb_refl in H0. discriminate H0.
Qed.

(** *** A new name *)

Lemma getProp_snoc (key value : string) (row : RawRow) (k : string) :
  hasOwn key row = false ->
  getProp k (row ++ [(key, value)])
  = if String.eqb key k then Some value else getProp k row.
Proof.
  induction row as [|[k0 v0] row IH]; intros Hown; [reflexivity|].
  cbn [hasOwn existsb fst] in Hown. apply orb_false_elim in Hown as [H0 Hown].
  cbn [app getProp]. rewrite (IH Hown).
  destruct (String.eqb_spec k0 k) as [->|Hk]; [|reflexivity].
  destruct (String.eqb_spec key k) as [->|_]; [|reflexivity].
  rewrite String.eqb_refl in H0. discriminate H0.
Qed.

(** *** The assignment *)

Lemma setProp_proto (value : string) (row : RawRow) :
  setProp "__proto__" value row = row.
Proof. reflexivity. Qed.

Lemma getProp_setProp (key value : string) (row : RawRow) (k : string) :
  key <> "__proto__" ->
  getProp k (setProp key value row)
  = if String.eqb key k then Some value else getProp k row.
Proof.
  intros Hkey. unfold setProp.
  destruct (String.eqb_spec key "__proto__") as [E|_]; [contradiction|].
  destruct (hasOwn key row) eqn:Hown.
  - now apply getProp_replaceProp.
  - destruct (arrayIndex key) as [n|].
    + now apply getProp_insertIndex.
    + now apply getProp_snoc.
Qed.

(** The keys after the assignment: the same keys, or the new key added at
    some place. *)
Lemma keys_setProp_cases (key value : string) (row : RawRow) :
  (map fst (setProp key value row) = map fst row
   /\ (key = "__proto__" \/ In key (map fst row)))
  \/ (Add key (map fst row) (map fst (setProp key value row))
      /\ key <> "__proto__" /\ ~ In key (map fst row)).
Proof.
  unfold setProp.
  destruct (String.eqb_spec key "__proto__") as [E|Hne];
    [left; split; [reflexivity | now left]|].
  destruct (hasOwn key row) eqn:Hown.
  - left. split; [apply keys_replaceProp|]. right. now apply hasOwn_In.
  - right. apply hasOwn_not_In in Hown. split; [|now split].
    destruct (arrayIndex key) as [n|]; [apply Add_insertIndex|].
    rewrite map_app. cbn [map fst].
    rewrite <- (app_nil_r (map fst row)) at 1. apply Add_app.
Qed.

Lemma keys_setProp (key value : string) (row : RawRow) (k : string) :
  In k (map fst (setProp key value row))
  <-> (k = key /\ key <> "__proto__") \/ In k (map fst row).
Proof.
  destruct (keys_setProp_cases key value row)
    as [(-> & Hc)|(Hadd & Hne & Hnew)].
  - split; [now right|]. intros [(-> & Hk)|H]; [|exact H].
    destruct Hc as [Hc|Hc]; [contradiction | exact Hc].
  - rewrite (Add_in Hadd). cbn [In]. split.
    + intros [<-|H]; [left; now split | now right].
    + intros [(-> & _)|H]; [now left | now right].
Qed.

Lemma NoDup_setProp (key value : string) (row : RawRow) :
  NoDup (map fst row) -> NoDup (map fst (setProp key value row)).
Proof.
  intros Hnd.
  destruct (keys_setProp_cases key value row)
    as [(-> & _)|(Hadd & _ & Hnew)]; [exact Hnd|].
  apply (NoDup_Add Hadd). now split.
Qed.

Lemma keys_fillRow (headers : list string) (k : string) :
  forall index values row,
    In k (map fst (fillRow headers index values row))
    <-> In k (map fst row) \/ (In k headers /\ k <> "__proto__").
Proof.
  induction headers as [|h hs IH]; intros index values row;
    cbn [fillRow In]; [tauto|].
  rewrite IH, keys_setProp. split.
  - intros [[(-> & Hh)|H]|(H & Hk)]; auto.
  - intros [H|([->|H] & Hk)]; auto.
Qed.

Lemma NoDup_fillRow (headers : list string) :
  forall index values row,
    NoDup (map fst row) -> NoDup (map fst (fillRow headers index values row)).
Proof.
  induction headers as [|h hs IH]; intros index values row Hnd;
    cbn [fillRow]; [exact Hnd|].
  now apply IH, NoDup_setProp.
Qed.

Lemma getProp_fillRow (headers : list string) (k : string) :
  k <> "__proto__" ->
  forall index values row,
    getProp k (fillRow headers index values row)
    = match lastIndexOf k headers with
      | Some j => Some (nth (index + j) values EmptyString)
      | None => getProp k row
      end.
Proof.
  intros Hk.
  induction headers as [|h hs IH]; intros index values row; [reflexivity|].
  cbn [fillRow lastIndexOf]. rewrite IH.
  destruct (lastIndexOf k hs) as [j|].
  - f_equal. f_equal. lia.
  - destruct (String.eqb_spec h k) as [->|Hne].
    + rewrite getProp_setProp by exact Hk.
      now rewrite String.eqb_refl, Nat.add_0_r.
    + destruct (String.eqb_spec h "__proto__") as [->|Hp];
        [now rewrite setProp_proto|].
      rewrite getProp_setProp by exact Hp.
      now destruct (String.eqb_spec h k).
Qed.

(** *** Rows in the order of the header row *)

Lemma plainName_parts (name : string) :
  plainName name = true <-> name <> "__proto__" /\ arrayIndex name = None.
Proof.
  unfold plainName, isIndex.
  destruct (String.eqb_spec name "__proto__") as [E|E];
    destruct (arrayIndex name); cbn; split; try tauto; try discriminate;
    intros [H1 H2]; congruence.
Qed.

Lemma setProp_fresh (key value : string) (row : RawRow) :
  plainName key = true -> ~ In key (map fst row) ->
  setProp key value row = row ++ [(key, value)].
Proof.
  intros Hp Hnew. apply plainName_parts in Hp as [Hne Hidx].
  apply hasOwn_not_In in Hnew. unfold setProp.
  destruct (String.eqb_spec key "__proto__") as [E|_]; [contradiction|].
  now rewrite Hnew, Hidx.
Qed.

Lemma fillRow_fresh (headers : list string) :
  forall index values row,
    forallb plainName headers = true ->
    NoDup (map fst row ++ headers) ->
    fillRow headers index values row
    = row ++ combine headers
               (map (fun j => nth j values EmptyString)
                  (seq index (List.length headers))).
Proof.
  induction headers as [|h hs IH]; intros index values row Hplain Hnd.
  - cbn. now rewrite app_nil_r.
  - cbn [forallb] in Hplain. apply andb_prop in Hplain as [Hh Hplain].
    cbn [fillRow List.length seq map combine].
    pose proof (NoDup_remove_2 _ _ _ Hnd) as Hnew.
    rewrite (setProp_fresh h _ row Hh)
      by (intros Hin; apply Hnew, in_or_app; now left).
    rewrite IH.
    + now rewrite <- app_assoc.
    + exact Hplain.
    + rewrite map_app. cbn [map fst]. now rewrite <- app_assoc.
Qed.

Lemma fillRow_rowByPosition (headers values : list string) :
  forallb plainName headers = true -> NoDup headers ->
  fillRow headers 0 values [] = rowByPosition headers values.
Proof. intros Hp H. now rewrite fillRow_fresh. Qed.

Lemma forallb_all_filter {A : Type} (p : A -> bool) (l : list A) :
  forallb p l = true -> filter p l = l.
Proof.
  induction l as [|x l IH]; [reflexivity|]. cbn [forallb filter].
  intros H. apply andb_prop in H as [Hx H]. rewrite Hx. f_equal. now apply IH.
Qed.

Lemma lastIndexOf_In (name : string) (names : list string) :
  In name names -> exists j, lastIndexOf name names = Some j.
Proof.
  induction names as [|h hs IH]; intros Hin; [contradiction|].
  cbn [lastIndexOf]. destruct (lastIndexOf name hs) as [j|] eqn:E.
  - now exists (S j).
  - destruct (String.eqb_spec h name) as [->|Hne]; [now exists 0|].
    destruct Hin as [H|H]; [contradiction|].
    destruct (IH H) as (j & Hj). discriminate.
Qed.

Lemma lastIndexOf_None (name : string) (names : list string) :
  lastIndexOf name names = None -> ~ In name names.
Proof.
  induction names as [|h hs IH]; intros H; [tauto|].
  cbn [lastIndexOf] in H.
  destruct (lastIndexOf name hs) as [j|]; [discriminate|].
  destruct (String.eqb_spec h name) as [->|Hne]; [discriminate|].
  intros [E|Hin]; [contradiction | now apply IH].
Qed.

Lemma lastIndexOf_last (name : string) (names : list string) (j : nat) :
  lastIndexOf name names = Some j ->
  j < List.length names
  /\ nth j names EmptyString = name
  /\ forall j', j < j' -> j' < List.length names ->
       nth j' names EmptyString <> name.
Proof.
  revert j. induction names as [|h hs IH]; intros j H; [discriminate|].
  cbn [lastIndexOf] in H.
  destruct (lastIndexOf name hs) as [j0|] eqn:E.
  - injection H as <-. destruct (IH j0 eq_refl) as (Hlt & Hn & Hlast).
    cbn [List.length nth]. split; [lia|]. split; [exact Hn|].
    intros [|j'] H1 H2; [lia|]. cbn [nth]. apply Hlast; lia.
  - destruct (String.eqb_spec h name) as [->|Hne]; [|discriminate].
    injection H as <-. cbn [List.length nth]. split; [lia|].
    split; [reflexivity|]. intros [|j'] H1 H2; [lia|]. cbn [nth].
    intros Hn. apply (lastIndexOf_None _ _ E). rewrite <- Hn.
    apply nth_In. lia.
Qed.

Lemma lastIndexOf_nth (headers : list string) :
  forall i, NoDup headers -> i < List.length headers ->
    lastIndexOf (nth i headers EmptyString) headers = Some i.
Proof.
  induction headers as [|h hs IH]; intros i Hnd Hi; [cbn in Hi; lia|].
  inversion Hnd as [|? ? Hh Hnd']; subst. cbn [lastIndexOf].
  destruct i as [|i]; cbn [nth].
  - destruct (lastIndexOf h hs) as [j|] eqn:E.
    + exfalso. apply Hh. clear -E. revert j E.
      induction hs as [|h' hs IH]; intros j E; [discriminate|].
      cbn [lastIndexOf] in E.
      destruct (lastIndexOf h hs) as [j'|]; [right; now apply (IH j')|].
      destruct (String.eqb_spec h' h) as [->|]; [now left | discriminate].
    + now rewrite String.eqb_refl.
  - cbn in Hi. rewrite IH by (assumption || lia). reflexivity.
Qed.

(** X4.  For a text of lines none of which is blank, with a header line of
    distinct names, [parseCSV] returns the header fields and one row per data
    line, in order.  Under each header other than __proto__ the row holds
    the field at the same place of the line, or the empty text when the line
    has fewer fields; the fields beyond the last header are left out.  When
    in addition no header is __proto__ or an array index, the row lists the
    headers in the order of the header row. *)
Theorem parseCSV_rows (headerLine : string) (dataLines : list string) :
  forallb wholeLine (headerLine :: dataLines) = true ->
  forallb nonBlank (headerLine :: dataLines) = true ->
  NoDup (parseCSVLine headerLine) ->
  exists rows,
    parseCSV (join (str1 LF) (headerLine :: dataLines))
    = Returned (parseCSVLine headerLine, rows)
    /\ List.length rows = List.length dataLines
    /\ (forall r i,
          r < List.length dataLines ->
          i < List.length (parseCSVLine headerLine) ->
          nth i (parseCSVLine headerLine) EmptyString <> "__proto__" ->
          getProp (nth i (parseCSVLine headerLine) EmptyString) (nth r rows [])
          = Some (nth i (parseCSVLine (nth r dataLines EmptyString))
                    EmptyString))
    /\ (forall r name,
          r < List.length dataLines ->
          (In name (map fst (nth r rows []))
           <-> In name (parseCSVLine headerLine) /\ name <> "__proto__"))
    /\ (forallb plainName (parseCSVLine headerLine) = true ->
        rows
        = map (fun line =>
                 combine (parseCSVLine headerLine)
                   (map (fun j => nth j (parseCSVLine line) EmptyString)
                      (seq 0 (List.length (parseCSVLine headerLine)))))
            dataLines).
Proof.
  intros Hwhole Hnb Hnd.
  exists (map (fun line =>
                 fillRow (parseCSVLine headerLine) 0 (parseCSVLine line) [])
            dataLines).
  split; [|split; [|split; [|split]]].
  - unfold parseCSV. rewrite splitLines_lines_LF by exact Hwhole.
    now rewrite (forallb_all_filter _ _ Hnb).
  - apply length_map.
  - intros r i Hr Hi Hp.
    rewrite (nth_indep _ [] (fillRow (parseCSVLine headerLine) 0
                               (parseCSVLine EmptyString) []))
      by now rewrite length_map.
    rewrite (map_nth (fun line =>
                        fillRow (parseCSVLine headerLine) 0
                          (parseCSVLine line) [])).
    rewrite getProp_fillRow by exact Hp.
    now rewrite lastIndexOf_nth.
  - intros r name Hr.
    rewrite (nth_indep _ [] (fillRow (parseCSVLine headerLine) 0
                               (parseCSVLine EmptyString) []))
      by now rewrite length_map.
    rewrite (map_nth (fun line =>
                        fillRow (parseCSVLine headerLine) 0
                          (parseCSVLine line) [])).
    rewrite keys_fillRow. cbn [map In]. tauto.
  - intros Hplain. apply map_ext. intros line.
    now apply fillRow_rowByPosition.
Qed.

Lemma parseCSV_rows_witness :
  exists rows,
    parseCSV (join (str1 LF) ["a,b,c"; "1"; "1,2,3,4"])
    = Returned (["a"; "b"; "c"], rows)
    /\ rows
       = [[("a", "1"); ("b", EmptyString); ("c", EmptyString)];
          [("a", "1"); ("b", "2"); ("c", "3")]].
Proof.
  assert (Hnd : NoDup (parseCSVLine "a,b,c"))
    by (repeat constructor; cbn; intuition discriminate).
  destruct (parseCSV_rows "a,b,c" ["1"; "1,2,3,4"] eq_refl eq_refl Hnd)
    as (rows & Hparse & _ & _ & _ & Hrows).
  exists rows. split; [exact Hparse|]. exact (Hrows eq_refl).
Defined.

(** A header row that holds the name __proto__ and array indices: the row
    has no property for the first, and lists the second before the others,
    in ascending order. *)
Example parseCSV_rows_example :
  parseCSV (join (str1 LF) ["b,10,__proto__,a,9"; "v0,v1,v2,v3,v4"])
  = Returned
      (["b"; "10"; "__proto__"; "a"; "9"],
       [[("9", "v4"); ("10", "v1"); ("b", "v0"); ("a", "v3")]]).
Proof. vm_compute. reflexivity. Qed.

(** *** The order of the keys *)

Lemma arrayIndex_text (key : string) (n : N) :
  arrayIndex key = Some n -> key = NilZero.string_of_uint (N.to_uint n).
Proof.
  unfold arrayIndex. destruct (digitsValue key 0) as [m|]; [|discriminate].
  destruct (m <? 4294967295)%N; [|discriminate]. cbn [andb].
  destruct (String.eqb_spec (NilZero.string_of_uint (N.to_uint m)) key)
    as [E|_]; [|discriminate].
  intros H. injection H as <-. now symmetry.
Qed.

Lemma arrayIndex_same (a b : string) (n : N) :
  arrayIndex a = Some n -> arrayIndex b = Some n -> a = b.
Proof.
  intros Ha Hb. apply arrayIndex_text in Ha, Hb. congruence.
Qed.

Lemma listedBefore_name (a key : string) :
  arrayIndex key = None -> listedBefore a key.
Proof. unfold listedBefore. intros ->. now destruct (arrayIndex a). Qed.

Lemma StronglySorted_snoc {A : Type} (R : A -> A -> Prop) (l : list A)
    (x : A) :
  StronglySorted R l -> Forall (fun y => R y x) l ->
  StronglySorted R (l ++ [x]).
Proof.
  induction 1 as [|a l Hs IH Ha]; intros Hx; cbn [app].
  - repeat constructor.
  - inversion Hx as [|? ? Hax Hlx]; subst. constructor; [now apply IH|].
    apply Forall_app. split; [exact Ha | now constructor].
Qed.

Lemma sorted_insertIndex (n : N) (key value : string) (row : RawRow) :
  arrayIndex key = Some n -> ~ In key (map fst row) ->
  StronglySorted listedBefore (map fst row) ->
  StronglySorted listedBefore (map fst (insertIndex n key value row)).
Proof.
  intros Hkey. induction row as [|[k v] row IH]; intros Hnew Hs.
  - cbn. repeat constructor.
  - cbn [map fst] in Hnew, Hs. cbn [insertIndex].
    inversion Hs as [|? ? Hs' Hk]; subst.
    assert (Hhead : forall x, listedBefore key k -> In x (map fst row) ->
                              listedBefore key x).
    { intros x Hkk Hx. rewrite Forall_forall in Hk. specialize (Hk x Hx).
      unfold listedBefore in *. rewrite Hkey in *.
      destruct (arrayIndex k) as [m|], (arrayIndex x) as [p|];
        try tauto; lia. }
    destruct (arrayIndex k) as [m|] eqn:Ek.
    + destruct (N.ltb_spec m n) as [Hlt|Hge]; cbn [map fst].
      * constructor; [apply IH; [intros H; apply Hnew; now right | exact Hs']|].
        apply Forall_forall. intros x Hx.
        apply (Add_in (Add_insertIndex n key value row)) in Hx.
        destruct Hx as [<-|Hx].
        -- unfold listedBefore. now rewrite Ek, Hkey.
        -- rewrite Forall_forall in Hk. now apply Hk.
      * assert (Hkk : listedBefore key k).
        { unfold listedBefore. rewrite Hkey, Ek.
          assert (m <> n); [|lia]. intros ->. apply Hnew. left.
          now apply (arrayIndex_same k key n). }
        constructor; [exact Hs|]. constructor; [exact Hkk|].
        apply Forall_forall. intros x Hx. now apply Hhead.
    + assert (Hkk : listedBefore key k)
        by (unfold listedBefore; now rewrite Hkey, Ek).
      cbn [map fst]. constructor; [exact Hs|]. constructor; [exact Hkk|].
      apply Forall_forall. intros x Hx. now apply Hhead.
Qed.

Lemma sorted_setProp (key value : string) (row : RawRow) :
  StronglySorted listedBefore (map fst row) ->
  StronglySorted listedBefore (map fst (setProp key value row)).
Proof.
  intros Hs. unfold setProp.
  destruct (String.eqb key "__proto__"); [exact Hs|].
  destruct (hasOwn key row) eqn:Hown; [now rewrite keys_replaceProp|].
  apply hasOwn_not_In in Hown.
  destruct (arrayIndex key) as [n|] eqn:Ekey.
  - now apply sorted_insertIndex.
  - rewrite map_app. cbn [map fst]. apply StronglySorted_snoc; [exact Hs|].
    apply Forall_forall. intros x _. now apply listedBefore_name.
Qed.

Lemma sorted_fillRow (headers : list string) :
  forall index values row,
    StronglySorted listedBefore (map fst row) ->
    StronglySorted listedBefore
      (map fst (fillRow headers index values row)).
Proof.
  induction headers as [|h hs IH]; intros index values row Hs;
    cbn [fillRow]; [exact Hs|].
  now apply IH, sorted_setProp.
Qed.

(** The names that are no array index, in the order of the row. *)
Lemma names_insertIndex (n : N) (key value : string) (row : RawRow) :
  isIndex key = true ->
  filter (fun k => negb (isIndex k)) (map fst (insertIndex n key value row))
  = filter (fun k => negb (isIndex k)) (map fst row).
Proof.
  intros Hkey. induction row as [|[k v] row IH]; cbn [insertIndex map fst].
  - cbn [filter]. now rewrite Hkey.
  - destruct (arrayIndex k) as [m|] eqn:Ek.
    + destruct (m <? n)%N; cbn [map fst filter].
      * now rewrite IH.
      * now rewrite Hkey.
    + cbn [map fst filter]. now rewrite Hkey.
Qed.

Lemma hasKey_filter (p : string -> bool) (key : string)
    (keys : list string) :
  p key = true -> hasKey key (filter p keys) = hasKey key keys.
Proof.
  intros Hp. destruct (hasKey key keys) eqn:E.
  - apply hasKey_In. apply filter_In. split; [now apply hasKey_In | exact Hp].
  - apply hasKey_not_In. intros H. apply filter_In in H as [H _].
    now apply hasKey_not_In in E.
Qed.

Lemma names_setProp (key value : string) (row : RawRow) :
  filter (fun k => negb (isIndex k)) (map fst (setProp key value row))
  = if plainName key
       && negb (hasKey key
                  (filter (fun k => negb (isIndex k)) (map fst row)))
    then filter (fun k => negb (isIndex k)) (map fst row) ++ [key]
    else filter (fun k => negb (isIndex k)) (map fst row).
Proof.
  unfold setProp, plainName.
  destruct (String.eqb key "__proto__"); [reflexivity|]. cbn [negb andb].
  destruct (isIndex key) eqn:Ei; cbn [negb andb].
  - destruct (hasOwn key row); [now rewrite keys_replaceProp|].
    unfold isIndex in Ei. destruct (arrayIndex key) as [n|] eqn:En;
      [|discriminate].
    apply names_insertIndex. unfold isIndex. now rewrite En.
  - rewrite hasKey_filter by now rewrite Ei.
    rewrite <- hasOwn_hasKey.
    destruct (hasOwn key row); cbn [negb]; [now rewrite keys_replaceProp|].
    unfold isIndex in Ei. destruct (arrayIndex key) as [n|] eqn:En;
      [discriminate|].
    rewrite map_app, filter_app. cbn [map fst filter].
    unfold isIndex. now rewrite En.
Qed.

Lemma names_fillRow (headers : list string) :
  forall index values row,
    filter (fun k => negb (isIndex k))
      (map fst (fillRow headers index values row))
    = fold_left (fun ks h => if hasKey h ks then ks else ks ++ [h])
        (filter plainName headers)
        (filter (fun k => negb (isIndex k)) (map fst row)).
Proof.
  induction headers as [|h hs IH]; intros index values row; [reflexivity|].
  cbn [fillRow filter]. rewrite IH, names_setProp.
  destruct (plainName h); cbn [andb fold_left]; [|reflexivity].
  now destruct (hasKey h _).
Qed.

Lemma hasKey_firstOccurrences (key : string) (keys : list string) :
  hasKey key (firstOccurrences keys) = hasKey key keys.
Proof.
  destruct (hasKey key keys) eqn:E.
  - apply hasKey_In. apply In_firstOccurrences. now apply hasKey_In.
  - apply hasKey_not_In. rewrite In_firstOccurrences. now apply hasKey_not_In.
Qed.

Lemma firstOccurrences_fold (keys : list string) :
  fold_left (fun ks h => if hasKey h ks then ks else ks ++ [h]) keys []
  = firstOccurrences keys.
Proof.
  induction keys as [|k keys IH] using rev_ind; [reflexivity|].
  rewrite fold_left_app. cbn [fold_left]. rewrite IH.
  now rewrite firstOccurrences_snoc, hasKey_firstOccurrences.
Qed.

(** X5.  A row built by [parseCSV] has exactly one property for each
    distinct header name other than __proto__, and none named __proto__.  It
    lists the names that are array indices first, in ascending order, then
    the other names in the order in which they first stand in the header
    row.  Under a name it holds the field at the last place where that name
    stands in the header row (the empty text if the line is shorter); so
    when a name is repeated, the fields at its earlier places are lost. *)
Theorem repeated_header_last_wins (headers values : list string) :
  NoDup (map fst (fillRow headers 0 values []))
  /\ (forall name,
        In name (map fst (fillRow headers 0 values []))
        <-> In name headers /\ name <> "__proto__")
  /\ StronglySorted listedBefore (map fst (fillRow headers 0 values []))
  /\ filter (fun k => negb (isIndex k))
       (map fst (fillRow headers 0 values []))
     = firstOccurrences (filter plainName headers)
  /\ (forall name,
        In name headers ->
        name <> "__proto__" ->
        exists j,
          j < List.length headers
          /\ nth j headers EmptyString = name
          /\ (forall j', j < j' -> j' < List.length headers ->
                         nth j' headers EmptyString <> name)
          /\ getProp name (fillRow headers 0 values [])
             = Some (nth j values EmptyString)).
Proof.
  split; [apply NoDup_fillRow; constructor|].
  split; [intros name; rewrite keys_fillRow; cbn [map In]; tauto|].
  split; [apply sorted_fillRow; constructor|].
  split; [rewrite names_fillRow; apply firstOccurrences_fold|].
  intros name Hin Hp. destruct (lastIndexOf_In _ _ Hin) as (j & Hj).
  destruct (lastIndexOf_last _ _ _ Hj) as (Hlt & Hn & Hlast).
  exists j. split; [exact Hlt|]. split; [exact Hn|]. split; [exact Hlast|].
  now rewrite getProp_fillRow, Hj.
Qed.

Lemma repeated_header_last_wins_witness :
  exists j,
    j < 3
    /\ nth j ["x"; "y"; "x"] EmptyString = "x"
    /\ (forall j', j < j' -> j' < 3 ->
                   nth j' ["x"; "y"; "x"] EmptyString <> "x")
    /\ getProp "x" (fillRow ["x"; "y"; "x"] 0 ["1"; "2"; "3"] [])
       = Some (nth j ["1"; "2"; "3"] EmptyString).
Proof.
  apply (proj2 (proj2 (proj2 (proj2
           (repeated_header_last_wins ["x"; "y"; "x"] ["1"; "2"; "3"]))))).
  - now left.
  - discriminate.
Defined.

Example repeated_header_example :
  fillRow ["x"; "y"; "x"] 0 ["1"; "2"; "3"] [] = [("x", "3"); ("y", "2")]
  /\ fillRow ["NewQuestion"; "MC"; EmptyString; EmptyString; EmptyString] 0
       ["Option"; "100"; "answer"; EmptyString; "feedback"] []
     = [("NewQuestion", "Option"); ("MC", "100"); (EmptyString, "feedback")]
  /\ fillRow ["b"; "2"; "__proto__"; "a"; "1"; "b"; "10"; "01"] 0
       ["v0"; "v1"; "v2"; "v3"; "v4"; "v5"; "v6"; "v7"] []
     = [("1", "v4"); ("2", "v1"); ("10", "v6"); ("b", "v5"); ("a", "v3");
        ("01", "v7")].
Proof. repeat split; vm_compute; reflexivity. Qed.

(** ** getColumnValue *)

Lemma find_keyMatches_none (row : RawRow) (column : string) :
  (forall k, In k (map fst row) ->
             toLowerCase (trim k) <> toLowerCase column) ->
  find (keyMatches column) row = None.
Proof.
  induction row as [|[k v] row IH]; intros H; [reflexivity|].
  cbn [find]. unfold keyMatches at 1. cbn [fst].
  destruct (String.eqb_spec (toLowerCase (trim k)) (toLowerCase column))
    as [E|E].
  - exfalso. apply (H k); [now left | exact E].
  - apply IH. intros k' Hk'. apply H. now right.
Qed.

Lemma toLowerCase_empty (s : string) :
  toLowerCase s = EmptyString -> s = EmptyString.
Proof. destruct s; [reflexivity | discriminate]. Qed.

Lemma firstMatch_bound (column : string) (headers : list string) (i : nat) :
  firstMatch column headers = Some i ->
  i < List.length headers
  /\ toLowerCase (trim (nth i headers EmptyString)) = toLowerCase column
  /\ forall j, j < i ->
       toLowerCase (trim (nth j headers EmptyString)) <> toLowerCase column.
Proof.
  revert i. induction headers as [|h hs IH]; intros i H; [discriminate|].
  cbn [firstMatch] in H.
  destruct (String.eqb_spec (toLowerCase (trim h)) (toLowerCase column))
    as [E|E].
  - injection H as <-. cbn. split; [lia|]. split; [exact E|]. intros j Hj. lia.
  - destruct (firstMatch column hs) as [i'|]; [|discriminate].
    injection H as <-. destruct (IH i' eq_refl) as (Hlt & Hm & Hfirst).
    cbn [List.length nth]. split; [lia|]. split; [exact Hm|].
    intros [|j] Hj; [exact E|]. apply Hfirst. lia.
Qed.

Lemma firstMatch_none (column : string) (headers : list string) :
  firstMatch column headers = None <->
  forall h, In h headers -> toLowerCase (trim h) <> toLowerCase column.
Proof.
  induction headers as [|h hs IH]; cbn [firstMatch In]; [tauto|].
  destruct (String.eqb_spec (toLowerCase (trim h)) (toLowerCase column))
    as [E|E].
  - split; [discriminate|]. intros H. exfalso.
    now apply (H h (or_introl eq_refl)).
  - destruct (firstMatch column hs) as [i|] eqn:Ei; cbn [option_map].
    + split; [discriminate|]. intros H. exfalso.
      assert (Hnone : Some i = None); [|discriminate Hnone].
      apply IH. intros h' Hh'. apply H. now right.
    + split; [|reflexivity]. intros _ h' [<-|Hh']; [exact E|].
      now apply (proj1 IH).
Qed.

(** *** Array indices and __proto__ name no column *)

Lemma isDigit_plain (c : ascii) :
  isDigit c = true -> isWhiteSpace c = false /\ lowerChar c = c.
Proof.
  destruct c as [[] [] [] [] [] [] [] []]; intros H;
    try discriminate H; split; reflexivity.
Qed.

Lemma digitsValue_digits (s : string) :
  forall acc n, digitsValue s acc = Some n -> allChars isDigit s = true.
Proof.
  induction s as [|c s IH]; intros acc n H; [reflexivity|].
  cbn [digitsValue] in H. cbn [allChars]. unfold isDigit at 1.
  destruct ((48 <=? nat_of_ascii c) && (nat_of_ascii c <=? 57))%nat;
    [|discriminate].
  apply (IH _ _ H).
Qed.

Lemma trimEnd_digits (s : string) :
  allChars isDigit s = true -> trimEnd s = s.
Proof.
  induction s as [|c s IH]; [reflexivity|]. cbn [allChars trimEnd].
  intros H. apply andb_prop in H as [Hc Hs].
  destruct (isDigit_plain c Hc) as [-> _]. now rewrite (IH Hs).
Qed.

Lemma trim_digits (s : string) : allChars isDigit s = true -> trim s = s.
Proof.
  intros H. unfold trim.
  assert (Hstart : trimStart s = s).
  { destruct s as [|c s]; [reflexivity|]. cbn [allChars] in H.
    apply andb_prop in H as [Hc _]. cbn [trimStart].
    now destruct (isDigit_plain c Hc) as [-> _]. }
  rewrite Hstart. now apply trimEnd_digits.
Qed.

Lemma toLowerCase_digits (s : string) :
  allChars isDigit s = true -> toLowerCase s = s.
Proof.
  unfold toLowerCase.
  induction s as [|c s IH]; [reflexivity|]. cbn [allChars mapChars].
  intros H. apply andb_prop in H as [Hc Hs].
  destruct (isDigit_plain c Hc) as [_ ->]. now rewrite (IH Hs).
Qed.

Lemma isIndex_normal (key : string) :
  isIndex key = true -> toLowerCase (trim key) = key.
Proof.
  unfold isIndex, arrayIndex.
  destruct (digitsValue key 0) as [n|] eqn:E; [|discriminate]. intros _.
  pose proof (digitsValue_digits _ _ _ E) as Hd.
  now rewrite (trim_digits _ Hd), (toLowerCase_digits _ Hd).
Qed.

(** A header that names a column, when the lower-cased column name is
    neither __proto__ nor an array index, is neither of them itself. *)
Lemma namesColumn_plain (column key : string) :
  plainName (toLowerCase column) = true ->
  toLowerCase (trim key) = toLowerCase column ->
  plainName key = true.
Proof.
  intros Hcol Hm. unfold plainName.
  destruct (String.eqb_spec key "__proto__") as [->|_].
  - exfalso. rewrite <- Hm in Hcol. discriminate Hcol.
  - destruct (isIndex key) eqn:Ei; [|reflexivity]. exfalso.
    rewrite (isIndex_normal key Ei) in Hm. rewrite <- Hm in Hcol.
    unfold plainName in Hcol. rewrite Ei in Hcol.
    now rewrite andb_false_r in Hcol.
Qed.

Lemma loaded_column_plain (column : string) :
  In column
    ["Q #"; "Q Type"; "Q Text"; "Question"; "Answer"; "Answer Match"; "Notes"]
  -> plainName (toLowerCase column) = true.
Proof.
  cbn [In]. intros H.
  repeat (destruct H as [<-|H]; [vm_compute; reflexivity|]). contradiction.
Qed.

(** *** The key that [getColumnValue] finds *)

Lemma findKey_replaceProp (column key value : string) (row : RawRow) :
  option_map fst (find (keyMatches column) (replaceProp key value row))
  = option_map fst (find (keyMatches column) row).
Proof.
  induction row as [|[k v] row IH]; [reflexivity|]. cbn [replaceProp].
  destruct (String.eqb k key); cbn [find]; unfold keyMatches at 1 3;
    cbn [fst];
    destruct (String.eqb (toLowerCase (trim k)) (toLowerCase column));
    try reflexivity.
  exact IH.
Qed.

Lemma findKey_insertIndex (column : string) (n : N) (key value : string)
    (row : RawRow) :
  keyMatches column (key, value) = false ->
  option_map fst (find (keyMatches column) (insertIndex n key value row))
  = option_map fst (find (keyMatches column) row).
Proof.
  intros Hkey. induction row as [|[k v] row IH]; cbn [insertIndex].
  - cbn [find]. now rewrite Hkey.
  - destruct (arrayIndex k) as [m|].
    + destruct (m <? n)%N.
      * cbn [find]. destruct (keyMatches column (k, v)); [reflexivity|].
        exact IH.
      * cbn [find]. now rewrite Hkey.
    + cbn [find]. now rewrite Hkey.
Qed.

Lemma findKey_snoc (column key value : string) (row : RawRow) :
  option_map fst (find (keyMatches column) (row ++ [(key, value)]))
  = match option_map fst (find (keyMatches column) row) with
    | Some k => Some k
    | None => if keyMatches column (key, value) then Some key else None
    end.
Proof.
  induction row as [|[k v] row IH]; cbn [app find].
  - now destruct (keyMatches column (key, value)).
  - destruct (keyMatches column (k, v)); [reflexivity | exact IH].
Qed.

Lemma find_keyMatches_In (column : string) (row : RawRow) (key : string) :
  find (keyMatches column) row = None -> In key (map fst row) ->
  String.eqb (toLowerCase (trim key)) (toLowerCase column) = false.
Proof.
  intros Hnone Hin. apply in_map_iff in Hin as ([k v] & <- & Hin).
  exact (find_none _ _ Hnone _ Hin).
Qed.

Lemma findKey_setProp (column key value : string) (row : RawRow) :
  plainName (toLowerCase column) = true ->
  option_map fst (find (keyMatches column) (setProp key value row))
  = match option_map fst (find (keyMatches column) row) with
    | Some k => Some k
    | None =>
        if String.eqb (toLowerCase (trim key)) (toLowerCase column)
        then Some key else None
    end.
Proof.
  intros Hcol.
  assert (Hplain : String.eqb (toLowerCase (trim key)) (toLowerCase column)
                   = true -> plainName key = true).
  { intros H. apply String.eqb_eq in H. now apply (namesColumn_plain column). }
  unfold setProp.
  destruct (String.eqb key "__proto__") eqn:Ep.
  - destruct (find (keyMatches column) row) as [[k v]|]; [reflexivity|].
    cbn [option_map].
    destruct (String.eqb (toLowerCase (trim key)) (toLowerCase column));
      [|reflexivity].
    specialize (Hplain eq_refl). unfold plainName in Hplain.
    rewrite Ep in Hplain. discriminate Hplain.
  - destruct (hasOwn key row) eqn:Hown.
    + rewrite findKey_replaceProp.
      destruct (find (keyMatches column) row) as [[k v]|] eqn:Ef;
        [reflexivity|].
      cbn [option_map].
      now rewrite (find_keyMatches_In column row key Ef)
        by now apply hasOwn_In.
    + destruct (arrayIndex key) as [n|] eqn:En.
      * assert (Hm : String.eqb (toLowerCase (trim key)) (toLowerCase column)
                     = false).
        { destruct (String.eqb (toLowerCase (trim key)) (toLowerCase column));
            [|reflexivity].
          specialize (Hplain eq_refl). unfold plainName, isIndex in Hplain.
          rewrite En in Hplain. now rewrite andb_false_r in Hplain. }
        rewrite findKey_insertIndex by exact Hm. rewrite Hm.
        now destruct (option_map fst (find (keyMatches column) row)).
      * apply findKey_snoc.
Qed.

Lemma findKey_fillRow (column : string) (headers : list string) :
  plainName (toLowerCase column) = true ->
  forall index values row,
    option_map fst (find (keyMatches column)
                      (fillRow headers index values row))
    = match option_map fst (find (keyMatches column) row) with
      | Some k => Some k
      | None =>
          option_map (fun i => nth i headers EmptyString)
            (firstMatch column headers)
      end.
Proof.
  intros Hcol.
  induction headers as [|h hs IH]; intros index values row.
  - cbn [fillRow firstMatch option_map].
    now destruct (option_map fst (find (keyMatches column) row)).
  - cbn [fillRow firstMatch]. rewrite IH, findKey_setProp by exact Hcol.
    destruct (option_map fst (find (keyMatches column) row)) as [k|];
      [reflexivity|].
    destruct (String.eqb (toLowerCase (trim h)) (toLowerCase column));
      [reflexivity|].
    destruct (firstMatch column hs); reflexivity.
Qed.

Lemma plainName_not_proto (name : string) :
  plainName name = true -> name <> "__proto__".
Proof. intros H. now apply plainName_parts in H as [H _]. Qed.

(** X6.  For each of the seven columns that [loadSourceRows] reads, and on
    a row built by [parseCSV], [getColumnValue] finds the first header that
    names the column once trimmed, the case ignored, and returns the field
    kept under that header: the field at the last place where the header
    stands, or the empty text when the line is shorter.  It returns the
    empty text when no header names the column.  With distinct headers this
    is the field at the place of the first header that names the column. *)
Theorem getColumnValue_by_header (headers values : list string)
    (column : string) :
  In column
    ["Q #"; "Q Type"; "Q Text"; "Question"; "Answer"; "Answer Match"; "Notes"]
  ->
  getColumnValue (fillRow headers 0 values []) column
  = match firstMatch column headers with
    | Some i =>
        match lastIndexOf (nth i headers EmptyString) headers with
        | Some j => nth j values EmptyString
        | None => EmptyString
        end
    | None => EmptyString
    end
  /\ (NoDup headers ->
      getColumnValue (fillRow headers 0 values []) column
      = match firstMatch column headers with
        | Some i => nth i values EmptyString
        | None => EmptyString
        end)
  /\ ((forall h, In h headers ->
                 toLowerCase (trim h) <> toLowerCase column) ->
      getColumnValue (fillRow headers 0 values []) column = EmptyString)
  /\ (forall i,
        firstMatch column headers = Some i ->
        i < List.length headers
        /\ toLowerCase (trim (nth i headers EmptyString))
           = toLowerCase column
        /\ forall j, j < i ->
             toLowerCase (trim (nth j headers EmptyString))
             <> toLowerCase column).
Proof.
  intros Hin.
  assert (Hcol : column <> EmptyString).
  { cbn [In] in Hin.
    repeat (destruct Hin as [<-|Hin]; [discriminate|]). contradiction. }
  pose proof (loaded_column_plain column Hin) as Hplain.
  assert (Hgen :
    getColumnValue (fillRow headers 0 values []) column
    = match firstMatch column headers with
      | Some i =>
          match lastIndexOf (nth i headers EmptyString) headers with
          | Some j => nth j values EmptyString
          | None => EmptyString
          end
      | None => EmptyString
      end).
  { pose proof (findKey_fillRow column headers Hplain 0 values []) as Hfind.
    cbn [find option_map] in Hfind. unfold getColumnValue.
    destruct (find (keyMatches column) (fillRow headers 0 values []))
      as [[key v]|]; destruct (firstMatch column headers) as [i|] eqn:Ei;
      cbn [option_map fst] in Hfind; try discriminate; [|reflexivity].
    injection Hfind as ->.
    apply firstMatch_bound in Ei as (_ & Hm & _).
    pose proof (plainName_not_proto _ (namesColumn_plain _ _ Hplain Hm))
      as Hp.
    destruct (nth i headers EmptyString) as [|c key'] eqn:Ek.
    - exfalso. apply Hcol. apply toLowerCase_empty. now rewrite <- Hm.
    - cbn [isEmpty]. rewrite getProp_fillRow by exact Hp.
      now destruct (lastIndexOf (String c key') headers). }
  split; [exact Hgen|]. split; [|split].
  - intros Hnd. rewrite Hgen.
    destruct (firstMatch column headers) as [i|] eqn:Ei; [|reflexivity].
    apply firstMatch_bound in Ei as (Hi & _).
    now rewrite lastIndexOf_nth.
  - intros Habs. rewrite Hgen.
    now rewrite (proj2 (firstMatch_none column headers) Habs).
  - intros i. apply firstMatch_bound.
Qed.

Lemma getColumnValue_by_header_witness :
  getColumnValue
    (fillRow [" q TEXT "; "Answer"; "q text"] 0 ["stem"; "yes"] []) "Q Text"
  = "stem"
  /\ getColumnValue (fillRow ["Q Text"; "Answer"] 0 ["stem"] []) "Notes"
     = EmptyString.
Proof.
  split.
  - refine (proj1 (proj2 (getColumnValue_by_header
                            [" q TEXT "; "Answer"; "q text"] ["stem"; "yes"]
                            "Q Text" _)) _).
    + cbn [In]. tauto.
    + repeat constructor; cbn; intuition discriminate.
  - refine (proj1 (proj2 (proj2 (getColumnValue_by_header
                                   ["Q Text"; "Answer"] ["stem"] "Notes" _)))
              _).
    + cbn [In]. tauto.
    + intros h [<-|[<-|[]]]; discriminate.
Defined.

(** ** validateColumns *)

(** Finds, among the headers of the goal, one that names the column. *)
Ltac named_by_some_header :=
  match goal with
  | |- exists h, In h ?headers /\ _ =>
      let rec try_each hs :=
        match hs with
        | ?h :: ?rest =>
            first [ exists h; split;
                    [repeat first [left; reflexivity | right] | reflexivity]
                  | try_each rest ]
        end in
      try_each headers
  end.

Lemma valid_iff_missing (headers : list string) :
  valid (validateColumns headers) = true <-> missingColumns headers = [].
Proof.
  rewrite validateColumns_spec. cbn [valid].
  destruct (missingColumns headers); cbn; split; congruence.
Qed.

Lemma valid_iff_present (headers : list string) :
  valid (validateColumns headers) = true
  <-> forall c, In c REQUIRED_COLUMNS ->
        exists h, In h headers /\ toLowerCase (trim h) = toLowerCase c.
Proof.
  rewrite valid_iff_missing. split.
  - intros Hnil c Hc.
    destruct (columnPresent (normalized headers) c) eqn:E.
    + now apply columnPresent_iff.
    + exfalso.
      assert (Hin : In c (missingColumns headers)).
      { unfold missingColumns. apply filter_In. now rewrite E. }
      rewrite Hnil in Hin. contradiction.
  - intros H. destruct (missingColumns headers) as [|c cs] eqn:E;
      [reflexivity|]. exfalso.
    assert (Hin : In c (missingColumns headers)) by (rewrite E; now left).
    apply In_missingColumns in Hin as [Hc Habs]. apply Habs. now apply H.
Qed.

(** X7.  The header row is valid exactly when each of the five required
    columns is named by some header, trimmed and the case ignored, which is
    exactly when the list of missing columns is empty; and the verdict
    depends only on which required columns are named: order, case, outer
    white space, repetitions and further columns do not change it. *)
Theorem validateColumns_valid (headers : list string) :
  (valid (validateColumns headers) = true
   <-> forall c, In c ["Q Type"; "Q Text"; "Answer"; "Answer Match"; "Notes"] ->
         exists h, In h headers /\ toLowerCase (trim h) = toLowerCase c)
  /\ (valid (validateColumns headers) = true
      <-> missing (validateColumns headers) = [])
  /\ (forall c, In c (missing (validateColumns headers)) ->
        In c ["Q Type"; "Q Text"; "Answer"; "Answer Match"; "Notes"])
  /\ (forall others,
        (forall c,
            In c ["Q Type"; "Q Text"; "Answer"; "Answer Match"; "Notes"] ->
            (exists h, In h headers
                       /\ toLowerCase (trim h) = toLowerCase c)
            <-> (exists h, In h others
                           /\ toLowerCase (trim h) = toLowerCase c)) ->
        validateColumns others = validateColumns headers).
Proof.
  split; [apply valid_iff_present|]. split; [apply valid_iff_missing|].
  split.
  - intros c Hc. now apply In_missingColumns in Hc as [Hc _].
  - intros others Hsame.
    assert (Hm : missingColumns others = missingColumns headers).
    { unfold missingColumns. apply filter_ext_in. intros c Hc. f_equal.
      specialize (Hsame c Hc). rewrite <- !columnPresent_iff in Hsame.
      destruct (columnPresent (normalized others) c);
        destruct (columnPresent (normalized headers) c);
        try reflexivity; intuition congruence. }
    rewrite !validateColumns_spec. now rewrite Hm.
Qed.

Lemma validateColumns_valid_witness :
  validateColumns [" notes"; "ANSWER MATCH"; "Q #"; "answer"; "q text";
                   "Q Type "; "Notes"]
  = validateColumns ["Q Type"; "Q Text"; "Answer"; "Answer Match"; "Notes"].
Proof.
  apply (proj2 (proj2 (proj2 (validateColumns_valid
           ["Q Type"; "Q Text"; "Answer"; "Answer Match"; "Notes"])))).
  intros c Hc. cbn [In] in Hc.
  repeat (destruct Hc as [<-|Hc];
          [split; intros _; named_by_some_header|]).
  contradiction.
Defined.

(** ** validateColumns, then loadSourceRows *)

Lemma required_not_empty (c : string) :
  In c REQUIRED_COLUMNS -> c <> EmptyString.
Proof. cbn. intros [<-|[<-|[<-|[<-|[<-|[]]]]]]; discriminate. Qed.

(** X8.  Once [validateColumns] has accepted the header row, the lookup of
    a required column in any row that [parseCSV] builds from that header row
    always lands on a header: the value returned is the one the row holds
    under a header that names the column, never the fallback for a column
    that is not there. *)
Theorem validated_lookup (headers values : list string) (c : string) :
  valid (validateColumns headers) = true ->
  In c REQUIRED_COLUMNS ->
  exists key,
    In key headers
    /\ toLowerCase (trim key) = toLowerCase c
    /\ getProp key (fillRow headers 0 values [])
       = Some (getColumnValue (fillRow headers 0 values []) c).
Proof.
  intros Hvalid Hc.
  destruct (proj1 (valid_iff_present headers) Hvalid c Hc) as (h & Hh & Hm).
  destruct (firstMatch c headers) as [i|] eqn:Ei.
  - pose proof (firstMatch_bound _ _ _ Ei) as (Hi & Hmi & _).
    exists (nth i headers EmptyString).
    assert (Hin : In (nth i headers EmptyString) headers)
      by now apply nth_In.
    split; [exact Hin|]. split; [exact Hmi|].
    assert (Hplain : plainName (toLowerCase c) = true).
    { apply loaded_column_plain. cbn [REQUIRED_COLUMNS In] in Hc. cbn [In].
      tauto. }
    pose proof (plainName_not_proto _ (namesColumn_plain _ _ Hplain Hmi))
      as Hp.
    destruct (lastIndexOf_In _ _ Hin) as (j & Hj).
    rewrite getProp_fillRow, Hj by exact Hp. f_equal.
    pose proof (findKey_fillRow c headers Hplain 0 values []) as Hfind.
    cbn [find option_map] in Hfind. rewrite Ei in Hfind.
    cbn [option_map] in Hfind. unfold getColumnValue.
    destruct (find (keyMatches c) (fillRow headers 0 values []))
      as [[key v]|]; [|discriminate].
    cbn [option_map fst] in Hfind. injection Hfind as ->.
    destruct (nth i headers EmptyString) as [|ch key'] eqn:Ek.
    + exfalso. apply (required_not_empty c Hc).
      apply toLowerCase_empty. now rewrite <- Hmi.
    + cbn [isEmpty]. rewrite getProp_fillRow, Hj by exact Hp. reflexivity.
  - exfalso. apply (proj1 (firstMatch_none c headers) Ei h Hh). exact Hm.
Qed.

Lemma validated_lookup_witness :
  exists key,
    In key ["q type"; "Q Text"; "Answer"; "Answer Match"; "NOTES"]
    /\ toLowerCase (trim key) = toLowerCase "Notes"
    /\ getProp key
         (fillRow ["q type"; "Q Text"; "Answer"; "Answer Match"; "NOTES"] 0
            ["MC"; "stem"] [])
       = Some
           (getColumnValue
              (fillRow ["q type"; "Q Text"; "Answer"; "Answer Match"; "NOTES"]
                 0 ["MC"; "stem"] [])
              "Notes").
Proof.
  apply validated_lookup; [reflexivity|]. cbn. tauto.
Defined.

(** ** parseCSVLine and escapeCSV: whole lines *)

Lemma parseLoop_joined (others : list string) :
  forall first res cur,
    fieldsOf
      (parseLoop (join "," (map escapeCSV (first :: others)))
         (mkLineState res cur false))
    = res ++ (cur ++ first)%string :: others.
Proof.
  induction others as [|second others IH]; intros first res cur.
  - cbn [map join String.concat]. now rewrite parseLoop_escaped_last.
  - cbn [map]. rewrite join_cons.
    change ("," ++ ?x)%string with (String COMMA x).
    rewrite parseLoop_escaped_field.
    change (escapeCSV second :: map escapeCSV others)
      with (map escapeCSV (second :: others)).
    rewrite IH. now rewrite <- app_assoc.
Qed.

Lemma parseCSVLine_cons (line : string) :
  exists first others, parseCSVLine line = first :: others.
Proof.
  unfold parseCSVLine.
  destruct (result (parseLoop line lineStart)) as [|f fs]; cbn [app];
    eauto.
Qed.

(** X9.  Writing a non-empty sequence of field values with [escapeCSV],
    separated by commas, and reading the line back with [parseCSVLine] gives
    the values again, whatever commas, quotes, line feeds or carriage returns
    they hold; hence two different values are never written alike, and
    writing the fields read from any line and reading them again gives the
    same fields. *)
Theorem parseCSVLine_join_escapeCSV :
  (forall first others,
      parseCSVLine (join "," (map escapeCSV (first :: others)))
      = first :: others)
  /\ (forall v w, escapeCSV v = escapeCSV w -> v = w)
  /\ (forall line,
        parseCSVLine (join "," (map escapeCSV (parseCSVLine line)))
        = parseCSVLine line).
Proof.
  assert (Hround : forall first others,
            parseCSVLine (join "," (map escapeCSV (first :: others)))
            = first :: others).
  { intros first others.
    apply (parseLoop_joined others first [] EmptyString). }
  split; [exact Hround|]. split.
  - intros v w E. pose proof (Hround v []) as Hv.
    pose proof (Hround w []) as Hw. cbn [map join String.concat] in Hv, Hw.
    rewrite E in Hv. congruence.
  - intros line. destruct (parseCSVLine_cons line) as (f & fs & ->).
    apply Hround.
Qed.

Lemma parseCSVLine_join_escapeCSV_witness :
  escapeCSV "a,b" <> escapeCSV ("a" ++ str1 QUOTE ++ "b")%string.
Proof.
  intros E.
  apply (proj1 (proj2 parseCSVLine_join_escapeCSV)) in E.
  discriminate E.
Defined.

(** ** parseCSVLine: lines without quotes *)

Lemma join_snoc (sep : string) (parts : list string) (a b : string) :
  join sep (parts ++ [(a ++ b)%string])
  = (join sep (parts ++ [a]) ++ b)%string.
Proof.
  induction parts as [|p parts IH]; cbn [app].
  - reflexivity.
  - destruct parts as [|q parts'].
    + cbn [app join String.concat]. now rewrite !append_assoc.
    + change ((q :: parts') ++ ?l) with (q :: parts' ++ l) in *.
      rewrite !join_cons, IH. now rewrite !append_assoc.
Qed.

Lemma join_snoc_empty (sep : string) (parts : list string) (a : string) :
  join sep ((parts ++ [a]) ++ [EmptyString])
  = (join sep (parts ++ [a]) ++ sep)%string.
Proof.
  induction parts as [|p parts IH]; cbn [app].
  - cbn [join String.concat]. now rewrite append_empty_r.
  - destruct parts as [|q parts'].
    + cbn [app join String.concat]. rewrite append_empty_r.
      now rewrite !append_assoc.
    + change ((q :: parts') ++ ?l) with (q :: parts' ++ l) in *.
      change (((q :: parts' ++ [a]) ++ [EmptyString]))
        with (q :: (parts' ++ [a]) ++ [EmptyString]) in *.
      rewrite !join_cons. cbn [app] in IH. rewrite IH.
      now rewrite !append_assoc.
Qed.

Lemma parseLoop_unquoted (line : string) :
  includes QUOTE line = false ->
  forall res cur,
    join "," (fieldsOf (parseLoop line (mkLineState res cur false)))
    = (join "," (res ++ [cur]) ++ line)%string
    /\ List.length (fieldsOf (parseLoop line (mkLineState res cur false)))
       = List.length res + 1 + occurrences COMMA line.
Proof.
  induction line as [|c line IH]; intros Hq res cur.
  - unfold fieldsOf. cbn [parseLoop result current occurrences].
    rewrite append_empty_r, length_app. cbn [List.length].
    split; [reflexivity | lia].
  - cbn [includes] in Hq. apply orb_false_elim in Hq as [Hc Hq].
    cbn [parseLoop inQuotes result current occurrences]. rewrite Hc.
    destruct (Ascii.eqb c COMMA) eqn:Ec.
    + apply Ascii.eqb_eq in Ec. subst c.
      destruct (IH Hq (res ++ [cur]) EmptyString) as [Hj Hl].
      split.
      * rewrite Hj, join_snoc_empty. now rewrite append_assoc.
      * rewrite Hl, length_app. cbn [List.length]. lia.
    + destruct (IH Hq res (cur ++ str1 c)%string) as [Hj Hl].
      split.
      * rewrite Hj, join_snoc. now rewrite append_assoc.
      * rewrite Hl. lia.
Qed.

(** X10.  On a line without quotes [parseCSVLine] cuts at the commas and
    nowhere else: joining its fields with commas gives the line back, and
    there is one field more than there are commas (so the empty line has one
    empty field, and a comma at the end opens a last, empty field). *)
Theorem parseCSVLine_unquoted (line : string) :
  includes QUOTE line = false ->
  join "," (parseCSVLine line) = line
  /\ List.length (parseCSVLine line) = S (occurrences COMMA line).
Proof.
  intros Hq.
  change (parseCSVLine line)
    with (fieldsOf (parseLoop line (mkLineState [] EmptyString false))).
  destruct (parseLoop_unquoted line Hq [] EmptyString) as [Hj Hl].
  split; [exact Hj|]. rewrite Hl. cbn [List.length]. lia.
Qed.

Lemma parseCSVLine_unquoted_witness :
  join "," (parseCSVLine "1,MC,,x y,") = "1,MC,,x y,"
  /\ List.length (parseCSVLine "1,MC,,x y,") = 5.
Proof. exact (parseCSVLine_unquoted "1,MC,,x y," eq_refl). Defined.

(** ** groupQuestions: warnings *)

Lemma groupWarning_cases (group : QuestionGroup) :
  (correctCount group = 1 /\ groupWarning group = [])
  \/ (correctCount group <> 1 /\ exists w, groupWarning group = [w]).
Proof.
  unfold groupWarning. destruct (correctCount group) as [|[|n]]; cbn.
  - right. split; [discriminate | eauto].
  - left. now split.
  - right. split; [discriminate | eauto].
Qed.

Lemma groupWarnings_length (gs : list QuestionGroup) :
  List.length (flat_map groupWarning gs)
  = List.length (filter (fun g => negb (Nat.eqb (correctCount g) 1)) gs).
Proof.
  induction gs as [|g gs IH]; [reflexivity|].
  cbn [flat_map filter]. rewrite length_app, IH.
  destruct (groupWarning_cases g) as [[Hc ->]|[Hc (w & ->)]].
  - rewrite Hc. reflexivity.
  - apply Nat.eqb_neq in Hc. rewrite Hc. reflexivity.
Qed.

(** X11.  The warnings of [groupQuestions] are one warning per skipped row,
    in the order of the rows, followed by the warnings of the groups, in the
    order of the groups; a group leaves no warning when exactly one of its
    options is correct and one warning otherwise; so there are as many
    warnings as skipped rows and groups without exactly one correct
    option. *)
Theorem warnings_structure (rows : list SourceRow) :
  grWarnings (groupQuestions rows)
  = map (fun row =>
           if isEmpty (trim (qNumber row)) then noNumberWarning row
           else notMCWarning row)
      (filter (fun row => negb (accepted row)) rows)
    ++ flat_map groupWarning (groups (groupQuestions rows))
  /\ skipped (groupQuestions rows)
     = List.length (filter (fun row => negb (accepted row)) rows)
  /\ (forall group,
        (groupWarning group = [] <-> correctCount group = 1)
        /\ List.length (groupWarning group) <= 1)
  /\ List.length (grWarnings (groupQuestions rows))
     = skipped (groupQuestions rows)
       + List.length
           (filter (fun g => negb (Nat.eqb (correctCount g) 1))
              (groups (groupQuestions rows))).
Proof.
  rewrite groupQuestions_spec. cbn [grWarnings groups skipped].
  split; [reflexivity|]. split; [reflexivity|]. split.
  - intros group.
    destruct (groupWarning_cases group) as [[Hc ->]|[Hc (w & ->)]];
      cbn [List.length]; split; try lia; split; congruence.
  - rewrite length_app, length_map, groupWarnings_length. reflexivity.
Qed.

Example warnings_example :
  grWarnings
    (groupQuestions
       [mcRow "1" "one?" "a" "correct" "n"; mcRow "1" "one?" "b" "Correct" "n";
        mcRow EmptyString "no number" "c" "no" "n";
        mcRow "2" "two?" "d" "no" "n"])
  = [("Row with Q Text " ++ str1 QUOTE ++ "no number..." ++ str1 QUOTE
        ++ " has no Q # - skipped")%string;
     ("Question " ++ str1 QUOTE ++ "one? ..." ++ str1 QUOTE
        ++ " has 2 correct answers")%string;
     ("Question " ++ str1 QUOTE ++ "two? ..." ++ str1 QUOTE
        ++ " has no correct answer")%string].
Proof. reflexivity. Qed.

(** ** groupQuestions: what every group satisfies *)

Lemma trimEnd_idem (s : string) : trimEnd (trimEnd s) = trimEnd s.
Proof.
  induction s as [|c s IH]; [reflexivity|]. cbn [trimEnd].
  destruct (isWhiteSpace c && isEmpty (trimEnd s)) eqn:E; [reflexivity|].
  cbn [trimEnd]. now rewrite IH, E.
Qed.

Lemma trimStart_head (s : string) :
  trimStart s = EmptyString
  \/ exists c rest, trimStart s = String c rest /\ isWhiteSpace c = false.
Proof.
  induction s as [|c s IH]; [now left|]. cbn [trimStart].
  destruct (isWhiteSpace c) eqn:E; [exact IH|]. right. eauto.
Qed.

Lemma trim_idem (s : string) : trim (trim s) = trim s.
Proof.
  unfold trim. destruct (trimStart_head s) as [->|(c & rest & -> & Hc)];
    [reflexivity|].
  cbn [trimEnd]. rewrite Hc. cbn [andb trimStart]. rewrite Hc.
  cbn [trimEnd]. rewrite Hc. cbn [andb]. now rewrite trimEnd_idem.
Qed.

Lemma In_groupsOf (rows : list SourceRow) (group : QuestionGroup) :
  In group (groupsOf rows) ->
  exists key, In key (map keyOf (filter accepted rows))
              /\ group = groupOf key rows.
Proof.
  unfold groupsOf, keysOf. rewrite in_map_iff. intros (k & <- & Hk).
  exists k. split; [now apply In_firstOccurrences | reflexivity].
Qed.

Lemma totalOptions_ge (gs : list QuestionGroup) :
  (forall g, In g gs -> options g <> []) ->
  List.length gs <= totalOptions gs.
Proof.
  induction gs as [|g gs IH]; intros H; [apply Nat.le_refl|].
  rewrite totalOptions_cons. cbn [List.length].
  assert (Hg : options g <> []) by (apply H; now left).
  assert (Hgs : List.length gs <= totalOptions gs)
    by (apply IH; intros g' Hg'; apply H; now right).
  destruct (options g); [contradiction | cbn [List.length]; lia].
Qed.

(** X12.  Every group that [groupQuestions] returns has at least one option
    and an empty prompt, and stands for a key that is not empty, carries no
    white space at either end and is the trimmed number of some input row;
    so there are never more groups than options, and a conversion that
    returns reports at least one question and at least as many options as
    questions. *)
Theorem groups_invariant (rows : list SourceRow) :
  (forall group, In group (groups (groupQuestions rows)) ->
     options group <> [] /\ gQuestion group = EmptyString)
  /\ (forall key group,
        In (key, group)
           (groupMap (fold_left groupRow rows (mkGroupState [] 0 []))) ->
        key <> EmptyString /\ trim key = key
        /\ exists row, In row rows /\ trim (qNumber row) = key)
  /\ (forall points,
        List.length (groups (groupQuestions rows))
        <= snd (generateD2LCSV (groups (groupQuestions rows)) points))
  /\ (forall csvContent points res,
        convertToD2L csvContent points = Returned res ->
        1 <= questionsCount res /\ questionsCount res <= optionsCount res).
Proof.
  assert (Hopt : forall rs group, In group (groups (groupQuestions rs)) ->
            options group <> [] /\ gQuestion group = EmptyString).
  { intros rs group Hin. rewrite groups_groupQuestions in Hin.
    apply In_groupsOf in Hin as (key & Hk & ->). split; [|reflexivity].
    destruct (rowsOf_first rs key Hk) as (first & rest & E).
    unfold groupOf. cbn [options]. rewrite E. discriminate. }
  assert (Hle : forall rs p,
            List.length (groups (groupQuestions rs))
            <= snd (generateD2LCSV (groups (groupQuestions rs)) p)).
  { intros rs p. rewrite generateD2LCSV_lines. cbn [snd].
    apply totalOptions_ge. intros g Hg. now apply (Hopt rs). }
  split; [apply Hopt|]. split; [|split; [intros p; apply Hle|]].
  - intros key group Hin. rewrite groupMap_fold in Hin.
    apply In_groupedMap in Hin as [Hk _].
    apply in_map_iff in Hk as (row & <- & Hrow).
    apply filter_In in Hrow as [Hin Ha]. unfold keyOf.
    split; [|split; [apply trim_idem | now exists row]].
    unfold accepted in Ha. apply andb_prop in Ha as [Hn _].
    intros E. rewrite E in Hn. discriminate.
  - intros csvContent points res H.
    apply convertToD2L_Returned in H
      as (headers & rows' & _ & _ & Hne & ->).
    cbn [questionsCount optionsCount]. split; [|apply Hle].
    destruct (groups (groupQuestions (loadSourceRows rows')));
      [contradiction | cbn [List.length]; lia].
Qed.

Lemma groups_invariant_witness :
  exists res,
    convertToD2L mixedInput (integer 1) = Returned res
    /\ 1 <= questionsCount res /\ questionsCount res <= optionsCount res.
Proof.
  eexists. split; [vm_compute; reflexivity|].
  refine (proj2 (proj2 (proj2 (groups_invariant [])))
            mixedInput (integer 1) _ _).
  vm_compute. reflexivity.
Defined.

(** ** generateD2LCSV: blocks *)

Lemma join_app (sep : string) (l1 l2 : list string) :
  l1 <> [] -> l2 <> [] ->
  join sep (l1 ++ l2) = (join sep l1 ++ sep ++ join sep l2)%string.
Proof.
  intros H1 H2. induction l1 as [|x l1 IH]; [contradiction|].
  destruct l1 as [|y l1'].
  - destruct l2 as [|z l2']; [contradiction | reflexivity].
  - change ((x :: y :: l1') ++ l2) with (x :: y :: (l1' ++ l2)).
    rewrite !join_cons.
    change (y :: l1' ++ l2) with ((y :: l1') ++ l2).
    rewrite IH by discriminate. now rewrite !append_assoc.
Qed.

Lemma groupLines_length (points : JSNumber) (group : QuestionGroup) :
  List.length (groupLines points group) = 4 + List.length (options group).
Proof.
  unfold groupLines. cbn [app List.length].
  rewrite length_app, length_map. cbn [List.length]. lia.
Qed.

Lemma blocks_length (points : JSNumber) (gs : list QuestionGroup) :
  List.length (flat_map (groupLines points) gs)
  = 4 * List.length gs + totalOptions gs.
Proof.
  induction gs as [|g gs IH]; [reflexivity|].
  cbn [flat_map]. rewrite length_app, groupLines_length, IH.
  rewrite totalOptions_cons. cbn [List.length]. lia.
Qed.

Lemma blocks_not_nil (points : JSNumber) (gs : list QuestionGroup) :
  gs <> [] -> flat_map (groupLines points) gs <> [].
Proof. destruct gs as [|g gs]; [contradiction | discriminate]. Qed.

(** X13.  [generateD2LCSV] writes one block per group: four fixed lines and
    one line per option, so 4 n + m lines for n groups with m options in
    all; no group gives the empty text and the count 0; and the text for two
    non-empty sequences of groups put end to end is the two texts joined by
    a line feed, the count being the sum of the two counts. *)
Theorem generateD2LCSV_blocks (points : JSNumber) :
  generateD2LCSV [] points = (EmptyString, 0)
  /\ (forall groups,
        List.length
          (lines (fold_left (emitGroup points) groups (mkEmitState [] 0)))
        = 4 * List.length groups + snd (generateD2LCSV groups points))
  /\ (forall groups1 groups2,
        snd (generateD2LCSV (groups1 ++ groups2) points)
        = snd (generateD2LCSV groups1 points)
          + snd (generateD2LCSV groups2 points))
  /\ (forall groups1 groups2,
        groups1 <> [] -> groups2 <> [] ->
        fst (generateD2LCSV (groups1 ++ groups2) points)
        = (fst (generateD2LCSV groups1 points) ++ str1 LF
             ++ fst (generateD2LCSV groups2 points))%string).
Proof.
  split; [reflexivity|]. split; [|split].
  - intros groups. rewrite fold_emitGroup, generateD2LCSV_lines.
    cbn [lines snd app]. apply blocks_length.
  - intros groups1 groups2. rewrite !generateD2LCSV_lines. cbn [snd].
    unfold totalOptions. now rewrite map_app, list_sum_app.
  - intros groups1 groups2 H1 H2. rewrite !generateD2LCSV_lines. cbn [fst].
    rewrite flat_map_app. now apply join_app; apply blocks_not_nil.
Qed.

Lemma generateD2LCSV_blocks_witness :
  fst (generateD2LCSV
         ([mkQuestionGroup "one?" EmptyString [mkQOption "a" true "n"]]
            ++ [mkQuestionGroup "two?" EmptyString []])
         (integer 2))
  = ("NewQuestion,MC,,," ++ str1 LF ++ "QuestionText,one?,,," ++ str1 LF
       ++ "Points,2,,," ++ str1 LF ++ "Option,100,a,,n" ++ str1 LF
       ++ ",,,," ++ str1 LF
       ++ "NewQuestion,MC,,," ++ str1 LF ++ "QuestionText,two?,,,"
       ++ str1 LF ++ "Points,2,,," ++ str1 LF ++ ",,,,")%string.
Proof.
  rewrite (proj2 (proj2 (proj2 (generateD2LCSV_blocks (integer 2))))
             [mkQuestionGroup "one?" EmptyString [mkQOption "a" true "n"]]
             [mkQuestionGroup "two?" EmptyString []])
    by discriminate.
  reflexivity.
Defined.

(** ** convertToD2L: the outcomes *)

(** X14.  [convertToD2L] has four outcomes, tried in this order: the empty
    error when the text has no line that is not blank; else the missing
    columns error when a required column is named by no header, whatever
    the data rows; else the no-questions error when every data row is
    skipped; else a result, whose question count is the number of groups,
    whose option count is the number of kept rows and whose text is the
    blocks of the groups. *)
Theorem convertToD2L_outcomes (csvContent : string) (points : JSNumber) :
  (parseCSV csvContent = Threw "CSV file is empty"
   /\ convertToD2L csvContent points = Threw "CSV file is empty")
  \/ exists headers rows,
       parseCSV csvContent = Returned (headers, rows)
       /\ ((missing (validateColumns headers) <> []
            /\ convertToD2L csvContent points
               = Threw ("Missing required columns: "
                          ++ join ", " (missing (validateColumns headers)))
                   %string)
           \/ (missing (validateColumns headers) = []
               /\ (forall row, In row (loadSourceRows rows) ->
                               accepted row = false)
               /\ convertToD2L csvContent points
                  = Threw "No valid MC questions found in the input file")
           \/ (missing (validateColumns headers) = []
               /\ (exists row, In row (loadSourceRows rows)
                               /\ accepted row = true)
               /\ convertToD2L csvContent points
                  = Returned
                      (mkConversionResult
                         (join (str1 LF)
                            (flat_map (groupLines points)
                               (groups
                                  (groupQuestions (loadSourceRows rows)))))
                         (List.length
                            (groups (groupQuestions (loadSourceRows rows))))
                         (List.length
                            (filter accepted (loadSourceRows rows)))
                         (grWarnings (groupQuestions (loadSourceRows rows)))
                         (List.length
                            (filter (fun row => negb (accepted row))
                               (loadSourceRows rows)))))).
Proof.
  destruct (parseCSV csvContent) as [[headers rows]|message] eqn:Hparse.
  - right. exists headers, rows. split; [reflexivity|].
    unfold convertToD2L. rewrite Hparse.
    rewrite validateColumns_spec. cbn [valid missing].
    destruct (missingColumns headers) as [|c cs] eqn:Hm.
    + right. cbn [List.length Nat.eqb negb].
      destruct (groups (groupQuestions (loadSourceRows rows)))
        as [|g gs] eqn:Hg.
      * left. split; [reflexivity|]. split; [|reflexivity].
        apply groupsOf_nil_iff. now rewrite <- groups_groupQuestions.
      * right. split; [reflexivity|]. split.
        -- destruct (existsb accepted (loadSourceRows rows)) eqn:E.
           ++ apply existsb_exists in E as (row & Hin & Ha). eauto.
           ++ exfalso.
              assert (Hnil : groupsOf (loadSourceRows rows) = []).
              { apply groupsOf_nil_iff. intros row Hin.
                destruct (accepted row) eqn:Ha; [|reflexivity].
                assert (existsb accepted (loadSourceRows rows) = true)
                  by (apply existsb_exists; eauto).
                congruence. }
              rewrite <- groups_groupQuestions, Hg in Hnil. discriminate.
        -- cbn [List.length Nat.eqb]. rewrite <- Hg.
           rewrite generateD2LCSV_lines.
           rewrite (groupQuestions_spec (loadSourceRows rows)).
           cbn [groups grWarnings skipped].
           now rewrite totalOptions_groupsOf.
    + left. split; [discriminate | reflexivity].
  - left.
    assert (message = "CSV file is empty") as ->.
    { unfold parseCSV in Hparse.
      destruct (filter nonBlank (splitLines csvContent EmptyString));
        [congruence | discriminate]. }
    split; [reflexivity|]. unfold convertToD2L. now rewrite Hparse.
Qed.

Example header_only_example :
  convertToD2L "Q #,Q Type,Q Text,Answer,Answer Match,Notes" (integer 1)
  = Threw "No valid MC questions found in the input file"
  /\ convertToD2L "Q #,Q Type" (integer 1)
     = Threw "Missing required columns: Q Text, Answer, Answer Match, Notes".
Proof. split; vm_compute; reflexivity. Qed.

(** ** convertToD2L: the points *)

(** X15.  The points value reaches the points lines of the text and nothing
    else: with two values, the conversion of a text throws the same error or
    returns twice, with the same counts, warnings and skipped rows, and
    with texts that are the blocks of the same groups. *)
Theorem points_only_in_text (text : string) (points1 points2 : JSNumber) :
  (forall message,
      convertToD2L text points1 = Threw message
      <-> convertToD2L text points2 = Threw message)
  /\ (forall res1,
        convertToD2L text points1 = Returned res1 ->
        exists res2 groups,
          convertToD2L text points2 = Returned res2
          /\ questionsCount res2 = questionsCount res1
          /\ optionsCount res2 = optionsCount res1
          /\ warnings res2 = warnings res1
          /\ skippedRows res2 = skippedRows res1
          /\ csvContent res1
             = join (str1 LF) (flat_map (groupLines points1) groups)
          /\ csvContent res2
             = join (str1 LF) (flat_map (groupLines points2) groups)).
Proof.
  unfold convertToD2L.
  destruct (parseCSV text) as [[headers rows]|m]; [|split].
  - destruct (valid (validateColumns headers)); cbn [negb].
    + destruct (Nat.eqb
                  (List.length (groups (groupQuestions (loadSourceRows rows))))
                  0).
      * split; [tauto | discriminate].
      * rewrite !generateD2LCSV_lines. split.
        -- intros message. split; discriminate.
        -- intros res1 H. injection H as <-.
           eexists. exists (groups (groupQuestions (loadSourceRows rows))).
           split; [reflexivity|]. cbn. repeat split.
    + split; [tauto | discriminate].
  - tauto.
  - discriminate.
Qed.

Lemma points_only_in_text_witness :
  exists res1 res2,
    convertToD2L mixedInput (integer 1) = Returned res1
    /\ convertToD2L mixedInput (integer 10) = Returned res2
    /\ csvContent res1 <> csvContent res2
    /\ optionsCount res2 = optionsCount res1
    /\ warnings res2 = warnings res1.
Proof.
  evaluated H1 (convertToD2L mixedInput (integer 1)).
  match type of H1 with
  | _ = Returned ?r1 =>
      destruct (proj2 (points_only_in_text mixedInput (integer 1) (integer 10))
                  r1 H1)
        as (res2 & gs & H2 & _ & Ho & Hw & _);
      exists r1, res2
  end.
  split; [exact H1|]. split; [exact H2|].
  split; [|split; [exact Ho | exact Hw]].
  evaluated H2' (convertToD2L mixedInput (integer 10)).
  rewrite H2' in H2. injection H2 as <-.
  intros E. vm_compute in E. discriminate E.
Defined.

(** ** groupQuestions: rows put end to end *)

Lemma firstOccurrences_app (keys1 keys2 : list string) :
  (forall k, In k keys2 -> ~ In k keys1) ->
  firstOccurrences (keys1 ++ keys2)
  = firstOccurrences keys1 ++ firstOccurrences keys2.
Proof.
  intros Hdis. induction keys1 as [|k keys1 IH]; [reflexivity|].
  cbn [app firstOccurrences]. rewrite IH.
  - rewrite filter_app. f_equal. f_equal.
    apply forallb_filter_id. apply forallb_forall. intros k' Hk'.
    apply negb_true_iff. apply sameKey_false. intros ->.
    apply (proj1 (In_firstOccurrences _ _)) in Hk'.
    apply (Hdis k Hk'). now left.
  - intros k' Hk' Hin. apply (Hdis k' Hk'). now right.
Qed.

Lemma rowsOf_app (key : string) (rows1 rows2 : list SourceRow) :
  rowsOf key (rows1 ++ rows2) = rowsOf key rows1 ++ rowsOf key rows2.
Proof. unfold rowsOf. now rewrite !filter_app. Qed.

Lemma groupOf_app_l (key : string) (rows1 rows2 : list SourceRow) :
  ~ In key (map keyOf (filter accepted rows2)) ->
  groupOf key (rows1 ++ rows2) = groupOf key rows1.
Proof.
  intros H. apply rowsOf_nil_iff in H. unfold groupOf, stemOf.
  now rewrite rowsOf_app, H, app_nil_r.
Qed.

Lemma groupOf_app_r (key : string) (rows1 rows2 : list SourceRow) :
  ~ In key (map keyOf (filter accepted rows1)) ->
  groupOf key (rows1 ++ rows2) = groupOf key rows2.
Proof.
  intros H. apply rowsOf_nil_iff in H. unfold groupOf, stemOf.
  now rewrite rowsOf_app, H.
Qed.

(** X16.  Grouping two sequences of rows put end to end: the skipped counts
    add up, the rows that are skipped change no group, and when no kept row
    of the second sequence carries the trimmed number of a kept row of the
    first, the groups are those of the first sequence followed by those of
    the second. *)
Theorem groupQuestions_app (rows1 rows2 : list SourceRow) :
  skipped (groupQuestions (rows1 ++ rows2))
  = skipped (groupQuestions rows1) + skipped (groupQuestions rows2)
  /\ groups (groupQuestions (filter accepted rows1))
     = groups (groupQuestions rows1)
  /\ ((forall row1 row2,
          In row1 rows1 -> accepted row1 = true ->
          In row2 rows2 -> accepted row2 = true ->
          trim (qNumber row1) <> trim (qNumber row2)) ->
      groups (groupQuestions (rows1 ++ rows2))
      = groups (groupQuestions rows1) ++ groups (groupQuestions rows2)).
Proof.
  rewrite !groupQuestions_spec. cbn [skipped groups]. split; [|split].
  - now rewrite filter_app, length_app.
  - unfold groupsOf, keysOf, groupOf, stemOf, rowsOf.
    now rewrite !filter_idem.
  - intros Hdis.
    assert (Hkeys : forall k,
              In k (map keyOf (filter accepted rows2)) ->
              ~ In k (map keyOf (filter accepted rows1))).
    { intros k H2 H1.
      apply in_map_iff in H1 as (r1 & E1 & Hr1).
      apply in_map_iff in H2 as (r2 & E2 & Hr2).
      apply filter_In in Hr1 as [Hr1 Ha1]. apply filter_In in Hr2 as [Hr2 Ha2].
      apply (Hdis r1 r2 Hr1 Ha1 Hr2 Ha2). unfold keyOf in E1, E2. congruence. }
    unfold groupsOf, keysOf. rewrite filter_app, map_app.
    rewrite (firstOccurrences_app _ _ Hkeys), map_app. f_equal.
    + apply map_ext_in. intros k Hk. apply groupOf_app_l.
      apply (proj1 (In_firstOccurrences _ _)) in Hk. intros H2.
      now apply (Hkeys k H2).
    + apply map_ext_in. intros k Hk. apply groupOf_app_r.
      apply (proj1 (In_firstOccurrences _ _)) in Hk. now apply Hkeys.
Qed.

Lemma groupQuestions_app_witness :
  groups
    (groupQuestions
       ([mcRow "1" "one?" "a" "correct" "n"; mcRow "1 " "one?" "b" "no" "n"]
          ++ [mcRow "2" "two?" "c" "correct" "n"]))
  = groups
      (groupQuestions
         [mcRow "1" "one?" "a" "correct" "n"; mcRow "1 " "one?" "b" "no" "n"])
    ++ groups (groupQuestions [mcRow "2" "two?" "c" "correct" "n"]).
Proof.
  apply (proj2 (proj2 (groupQuestions_app _ _))).
  intros row1 row2 [<-|[<-|[]]] _ [<-|[]] _; discriminate.
Defined.

(** ** ConversionForm: the name of the downloaded file *)

Lemma removeFirst_absent (pattern s : string) :
  occursIn pattern s = false -> removeFirst pattern s = s.
Proof.
  induction s as [|c s IH]; intros H.
  - cbn [occursIn] in H. apply orb_false_elim in H as [Hp _].
    cbn [removeFirst]. now rewrite Hp.
  - cbn [occursIn] in H. apply orb_false_elim in H as [Hp H].
    cbn [removeFirst]. rewrite Hp. f_equal. now apply IH.
Qed.

Lemma prefix_csv_inside (t rest : string) :
  t <> EmptyString ->
  String.prefix ".csv" (t ++ ".csv" ++ rest)
  = String.prefix ".csv" (t ++ ".cs").
Proof.
  intros Ht.
  destruct t as [|a [|b [|c [|d t']]]]; [contradiction|..];
    cbn [append String.prefix];
    repeat (destruct (ascii_dec _ _) as [E|E];
            [try discriminate E | try reflexivity]);
    first [reflexivity | destruct t'; reflexivity].
Qed.

Lemma removeFirst_csv (base rest : string) :
  occursIn ".csv" (base ++ ".cs") = false ->
  removeFirst ".csv" (base ++ ".csv" ++ rest)%string = (base ++ rest)%string.
Proof.
  induction base as [|c base IH]; intros H.
  - cbn [append]. unfold removeFirst. destruct rest; reflexivity.
  - change (String c base ++ ?x)%string with (String c (base ++ x)) in H.
    cbn [occursIn] in H. apply orb_false_elim in H as [Hp H].
    change (String c (base ++ ".cs")) with (String c base ++ ".cs")%string
      in Hp.
    rewrite <- (prefix_csv_inside (String c base) rest) in Hp
      by discriminate.
    change (String c base ++ ?x)%string with (String c (base ++ x)) in *.
    cbn [removeFirst]. rewrite Hp. f_equal. now apply IH.
Qed.

(** X17.  The name offered for the download is the name of the chosen file
    with its first .csv taken out and _D2L.csv put at the end: a name whose
    first .csv is its extension keeps its base, and a name in which .csv
    does not stand (an extension in capitals, say) is kept whole before the
    new ending. *)
Theorem downloadName_of_file :
  (forall base rest,
      occursIn ".csv" (base ++ ".cs") = false ->
      downloadName (base ++ ".csv" ++ rest)%string
      = (base ++ rest ++ "_D2L.csv")%string)
  /\ (forall fileName,
        occursIn ".csv" fileName = false ->
        downloadName fileName = (fileName ++ "_D2L.csv")%string).
Proof.
  split.
  - intros base rest H. unfold downloadName.
    rewrite (removeFirst_csv base rest H). now rewrite append_assoc.
  - intros fileName H. unfold downloadName.
    now rewrite (removeFirst_absent _ _ H).
Qed.

Lemma downloadName_of_file_witness :
  downloadName "my.questions.csv" = "my.questions_D2L.csv"
  /\ downloadName "QUESTIONS.CSV" = "QUESTIONS.CSV_D2L.csv".
Proof.
  split.
  - exact (proj1 downloadName_of_file "my.questions" EmptyString eq_refl).
  - exact (proj2 downloadName_of_file "QUESTIONS.CSV" eq_refl).
Defined.

(** ** convertToD2L: texts without question numbers *)

Lemma parseCSV_Returned (csvContent : string) (headers : list string)
    (rows : list RawRow) :
  parseCSV csvContent = Returned (headers, rows) ->
  exists dataLines,
    rows = map (fun line => fillRow headers 0 (parseCSVLine line) [])
             dataLines.
Proof.
  unfold parseCSV.
  destruct (filter nonBlank (splitLines csvContent EmptyString))
    as [|headerLine dataLines]; [discriminate|].
  intros H. injection H as <- <-. now exists dataLines.
Qed.

Lemma getColumnValue_absent (headers values : list string)
    (column : string) :
  (forall h, In h headers -> toLowerCase (trim h) <> toLowerCase column) ->
  getColumnValue (fillRow headers 0 values []) column = EmptyString.
Proof.
  intros H. unfold getColumnValue. rewrite find_keyMatches_none; [reflexivity|].
  intros k Hk. apply keys_fillRow in Hk as [[]|[Hk _]]. now apply H.
Qed.

Lemma filter_all_length {A : Type} (p : A -> bool) (l : list A) :
  (forall x, In x l -> p x = true) ->
  List.length (filter p l) = List.length l.
Proof.
  intros H. rewrite forallb_filter_id; [reflexivity|].
  now apply forallb_forall.
Qed.

(** X18.  The question-number column is not among the required columns, yet
    nothing is converted without it: when the header row passes the
    validation and no header is named Q # (trimmed, the case ignored), every
    data row gets an empty number and is skipped, and the conversion throws
    the no-questions error. *)
Theorem number_column_needed (csvContent : string) (points : JSNumber)
    (headers : list string) (rows : list RawRow) :
  parseCSV csvContent = Returned (headers, rows) ->
  valid (validateColumns headers) = true ->
  (forall h, In h headers -> toLowerCase (trim h) <> "q #") ->
  (forall row, In row (loadSourceRows rows) -> qNumber row = EmptyString)
  /\ skipped (groupQuestions (loadSourceRows rows)) = List.length rows
  /\ convertToD2L csvContent points
     = Threw "No valid MC questions found in the input file".
Proof.
  intros Hparse Hvalid Hnone.
  destruct (parseCSV_Returned _ _ _ Hparse) as (dataLines & ->).
  assert (Hnum : forall row,
            In row (loadSourceRows
                      (map (fun line =>
                              fillRow headers 0 (parseCSVLine line) [])
                         dataLines)) ->
            qNumber row = EmptyString).
  { intros row Hin. unfold loadSourceRows in Hin. rewrite map_map in Hin.
    apply in_map_iff in Hin as (line & <- & _).
    cbn [loadSourceRow qNumber]. now apply getColumnValue_absent. }
  assert (Hrej : forall row,
            In row (loadSourceRows
                      (map (fun line =>
                              fillRow headers 0 (parseCSVLine line) [])
                         dataLines)) ->
            accepted row = false).
  { intros row Hin. unfold accepted. now rewrite (Hnum row Hin). }
  split; [exact Hnum|]. split.
  - rewrite groupQuestions_spec. cbn [skipped].
    rewrite filter_all_length.
    + unfold loadSourceRows. now rewrite !length_map.
    + intros row Hin. unfold rejected. now rewrite (Hrej row Hin).
  - unfold convertToD2L. rewrite Hparse, Hvalid. cbn [negb].
    rewrite groups_groupQuestions.
    now rewrite (proj2 (groupsOf_nil_iff _) Hrej).
Qed.

Lemma number_column_needed_witness :
  convertToD2L
    (join (str1 LF)
       ["Q Type,Q Text,Answer,Answer Match,Notes"; "MC,What?,Yes,Correct,ok"])
    (integer 1)
  = Threw "No valid MC questions found in the input file".
Proof.
  evaluated Hparse
    (parseCSV
       (join (str1 LF)
          ["Q Type,Q Text,Answer,Answer Match,Notes";
           "MC,What?,Yes,Correct,ok"])).
  refine (proj2 (proj2 (number_column_needed _ (integer 1) _ _ Hparse _ _))).
  - vm_compute. reflexivity.
  - intros h Hin. cbn [In] in Hin.
    repeat (destruct Hin as [<-|Hin]; [vm_compute; discriminate|]).
    contradiction.
Defined.

(** ** generateD2LCSV: the text cut into lines again *)

Lemma includes_doubleQuotes (c : ascii) (v : string) :
  Ascii.eqb QUOTE c = false ->
  includes c (doubleQuotes v) = includes c v.
Proof.
  intros Hc. induction v as [|d v IH]; [reflexivity|].
  cbn [doubleQuotes]. destruct (Ascii.eqb d QUOTE) eqn:E.
  - apply Ascii.eqb_eq in E. subst d. cbn [includes]. rewrite Hc, IH.
    reflexivity.
  - cbn [includes]. now rewrite IH.
Qed.

Lemma includes_escapeCSV (c : ascii) (v : string) :
  Ascii.eqb QUOTE c = false ->
  includes c (escapeCSV v) = includes c v.
Proof.
  intros Hc. unfold escapeCSV. destruct (hasSpecial v); [|reflexivity].
  rewrite !includes_append, includes_doubleQuotes by exact Hc.
  cbn [str1 includes]. rewrite Hc. cbn [orb]. apply orb_false_r.
Qed.

Lemma endsWithCR_includes (s : string) :
  includes CR s = false -> endsWithCR s = false.
Proof.
  induction s as [|c s IH]; [reflexivity|]. cbn [includes]. intros H.
  apply orb_false_elim in H as [Hc H]. cbn [endsWithCR].
  destruct s; [exact Hc | now apply IH].
Qed.

Lemma wholeLine_includes (line : string) :
  includes LF line = false -> includes CR line = false ->
  wholeLine line = true.
Proof.
  intros Hlf Hcr. unfold wholeLine.
  now rewrite Hlf, (endsWithCR_includes line Hcr).
Qed.

Lemma oneLine_parts (v : string) :
  oneLine v = true -> includes LF v = false /\ includes CR v = false.
Proof.
  unfold oneLine. intros H. apply andb_prop in H as [H1 H2].
  now rewrite negb_true_iff in H1, H2.
Qed.

Lemma includes_break_line (c : ascii) (points : JSNumber)
    (group : QuestionGroup) (line : string) :
  c = LF \/ c = CR ->
  includes c (trim (gText group)) = false ->
  (forall o, In o (options group) ->
             includes c (optAnswer o) = false
             /\ includes c (feedback o) = false) ->
  In line (groupLines points group) -> includes c line = false.
Proof.
  intros Hc Hstem Hopts Hin.
  assert (Hq : Ascii.eqb QUOTE c = false)
    by (destruct Hc as [->| ->]; reflexivity).
  assert (Hd : isNumberChar c = false)
    by (destruct Hc as [->| ->]; reflexivity).
  unfold groupLines in Hin. cbn [app In] in Hin.
  rewrite in_app_iff, in_map_iff in Hin. cbn [In] in Hin.
  destruct Hin as [<-|[<-|[<-|[(o & <- & Ho)|[<-|[]]]]]].
  - destruct Hc as [->| ->]; reflexivity.
  - unfold questionTextLine.
    rewrite !includes_append, (includes_escapeCSV c _ Hq), Hstem.
    destruct Hc as [->| ->]; reflexivity.
  - unfold pointsLine.
    rewrite !includes_append, (includes_numberToString c points Hd).
    destruct Hc as [->| ->]; reflexivity.
  - destruct (Hopts o Ho) as [Ha Hf]. unfold optionLine.
    rewrite !includes_append, !(includes_escapeCSV c _ Hq), Ha, Hf.
    rewrite (includes_numberToString c _ Hd).
    destruct Hc as [->| ->]; reflexivity.
  - destruct Hc as [->| ->]; reflexivity.
Qed.

Lemma oneLineGroup_lines (points : JSNumber) (group : QuestionGroup) :
  oneLineGroup group = true ->
  forallb wholeLine (groupLines points group) = true.
Proof.
  unfold oneLineGroup. intros H. apply andb_prop in H as [Hstem Hopts].
  apply oneLine_parts in Hstem as [Hs1 Hs2].
  rewrite forallb_forall in Hopts.
  apply forallb_forall. intros line Hin. apply wholeLine_includes.
  - apply (includes_break_line LF points group line); auto.
    intros o Ho. specialize (Hopts o Ho). apply andb_prop in Hopts as [Ha Hf].
    apply oneLine_parts in Ha as [Ha _]. apply oneLine_parts in Hf as [Hf _].
    now split.
  - apply (includes_break_line CR points group line); auto.
    intros o Ho. specialize (Hopts o Ho). apply andb_prop in Hopts as [Ha Hf].
    apply oneLine_parts in Ha as [_ Ha]. apply oneLine_parts in Hf as [_ Hf].
    now split.
Qed.

Lemma oneLineGroups_lines (points : JSNumber) (gs : list QuestionGroup) :
  forallb oneLineGroup gs = true ->
  forallb wholeLine (flat_map (groupLines points) gs) = true.
Proof.
  induction gs as [|g gs IH]; [reflexivity|]. cbn [forallb flat_map].
  intros H. apply andb_prop in H as [Hg H].
  rewrite forallb_app, (oneLineGroup_lines points g Hg). now apply IH.
Qed.

(** X19.  When the trimmed stems, the answers and the feedbacks hold no line
    feed and no carriage return, the text that [generateD2LCSV] writes for a
    non-empty sequence of groups is cut by the line splitter of [parseCSV]
    into exactly the lines written, 4 n + m of them for n groups with m
    options, none of them blank, and [parseCSVLine] reads five fields from
    each. *)
Theorem generateD2LCSV_lines_back (groups : list QuestionGroup)
    (points : JSNumber) :
  groups <> [] ->
  forallb oneLineGroup groups = true ->
  splitLines (fst (generateD2LCSV groups points)) EmptyString
  = flat_map (groupLines points) groups
  /\ List.length
       (splitLines (fst (generateD2LCSV groups points)) EmptyString)
     = 4 * List.length groups + snd (generateD2LCSV groups points)
  /\ forall line,
       In line
         (splitLines (fst (generateD2LCSV groups points)) EmptyString) ->
       nonBlank line = true /\ List.length (parseCSVLine line) = 5.
Proof.
  intros Hne Hone.
  assert (Hsplit :
            splitLines (fst (generateD2LCSV groups points)) EmptyString
            = flat_map (groupLines points) groups).
  { rewrite generateD2LCSV_lines. cbn [fst].
    pose proof (oneLineGroups_lines points groups Hone) as Hwhole.
    destruct (flat_map (groupLines points) groups) as [|first others] eqn:E.
    - exfalso. now apply (blocks_not_nil points groups Hne).
    - now apply splitLines_lines_LF. }
  rewrite Hsplit. split; [reflexivity|]. split.
  - rewrite generateD2LCSV_lines. cbn [snd]. apply blocks_length.
  - intros line Hin. apply in_flat_map in Hin as (g & _ & Hin).
    pose proof (parseCSVLine_groupLines points g line Hin) as Hfive.
    split; [|exact Hfive].
    unfold nonBlank. destruct (trim line) eqn:Et; [|reflexivity].
    exfalso. unfold groupLines in Hin. cbn [app In] in Hin.
    rewrite in_app_iff, in_map_iff in Hin. cbn [In] in Hin.
    destruct Hin as [<-|[<-|[<-|[(o & <- & _)|[<-|[]]]]]];
      discriminate Et.
Qed.

Lemma generateD2LCSV_lines_back_witness :
  splitLines
    (fst (generateD2LCSV
            [mkQuestionGroup " one, two? " EmptyString
               [mkQOption "a" true "n"]] (Finite false 1 22)))
    EmptyString
  = ["NewQuestion,MC,,,";
     ("QuestionText," ++ str1 QUOTE ++ "one, two?" ++ str1 QUOTE ++ ",,,")
       %string;
     "Points,1e+21,,,"; "Option,100,a,,n"; ",,,,"].
Proof.
  exact (proj1 (generateD2LCSV_lines_back
                  [mkQuestionGroup " one, two? " EmptyString
                     [mkQOption "a" true "n"]] (Finite false 1 22)
                  ltac:(discriminate) eq_refl)).
Defined.
